(** * mealie-api.py: a shallow embedding and its checked properties

    The program is a command-line client: it parses a JSON payload argument
    (repairing shell escapes when the first decode fails), classifies the
    fields of a multipart payload into files and plain fields, sends one HTTP
    request and renders the response.

    Python [str] values are modelled as lists of Unicode code points, the
    world (standard output, the requests issued, the file handles opened and
    closed) is threaded explicitly, and [sys.exit] and uncaught exceptions
    are outcomes of a small monad. What the operating system, the network
    and the third-party libraries answer is collected in the record
    [Platform], together with the limits of the interpreter that the JSON
    decoder and encoder can run into. Writing to standard output is taken
    to succeed. *)

From Stdlib Require Import List NArith ZArith Ascii String Bool Lia Arith.
From Stdlib Require Import DecimalString.
Import ListNotations.

Set Implicit Arguments.
Set Warnings "-abstract-large-number,-register-all".

(* ================================================================== *)
(** * Python strings *)
(* ================================================================== *)

Module Str.

Local Open Scope N_scope.

(** A Python [str]: a sequence of Unicode code points. *)
Definition pystr : Type := list N.

Definition cp (a : ascii) : N := N_of_ascii a.
Arguments cp : simpl never.

(** The code points of an ASCII literal. *)
Definition u (s : string) : pystr := map cp (list_ascii_of_string s).
Arguments u : simpl never.

Definition dquote : N := 34.
Definition backslash : N := 92.
Definition newline : N := 10.

(** An ASCII literal in which every apostrophe stands for a double quote;
    used to write JSON texts. *)
Definition js (s : string) : pystr :=
  map (fun c => if N.eqb c 39 then dquote else c) (u s).

Fixpoint eqb (a b : pystr) : bool :=
  match a, b with
  | [], [] => true
  | x :: a', y :: b' => N.eqb x y && eqb a' b'
  | _, _ => false
  end.

(** [c in chars] for a character [c]. *)
Definition mem (c : N) (chars : list N) : bool := existsb (N.eqb c) chars.

(** [key in [k1, k2, ...]] for strings. *)
Definition mem_str (s : pystr) (l : list pystr) : bool := existsb (eqb s) l.

(** [s.startswith(prefix)] *)
Fixpoint startswith (s prefix : pystr) {struct prefix} : bool :=
  match prefix, s with
  | [], _ => true
  | p :: prefix', c :: s' => N.eqb c p && startswith s' prefix'
  | _ :: _, [] => false
  end.

(** [sub in s] *)
Fixpoint contains (sub s : pystr) : bool :=
  startswith s sub ||
  match s with
  | [] => false
  | _ :: s' => contains sub s'
  end.

(** [s.split(sep)] for a one-character separator: never empty. *)
Fixpoint split (sep : N) (s : pystr) : list pystr :=
  match s with
  | [] => [[]]
  | c :: s' =>
      if N.eqb c sep then [] :: split sep s'
      else match split sep s' with
           | [] => [[c]]
           | seg :: segs => (c :: seg) :: segs
           end
  end.

(** [l[-1]] on a list of strings ([IndexError] cannot arise on the result
    of [split]). *)
Definition last_item (l : list pystr) : pystr := last l [].

(** [str.isspace] on one character: the code points CPython treats as
    whitespace. *)
Definition isspace (c : N) : bool :=
  ((9 <=? c) && (c <=? 13)) || ((28 <=? c) && (c <=? 32))
  || (c =? 133) || (c =? 160) || (c =? 5760)
  || ((8192 <=? c) && (c <=? 8202))
  || (c =? 8232) || (c =? 8233) || (c =? 8239) || (c =? 8287)
  || (c =? 12288).

Fixpoint lstrip_by (p : N -> bool) (s : pystr) : pystr :=
  match s with
  | [] => []
  | c :: s' => if p c then lstrip_by p s' else s
  end.

Definition rstrip_by (p : N -> bool) (s : pystr) : pystr :=
  rev (lstrip_by p (rev s)).

(** [s.strip()] *)
Definition strip (s : pystr) : pystr := rstrip_by isspace (lstrip_by isspace s).

(** [s.rstrip(chars)] *)
Definition rstrip (chars : list N) (s : pystr) : pystr :=
  rstrip_by (fun c => mem c chars) s.

(** [s[-n:]] *)
Definition last_n (n : nat) (s : pystr) : pystr :=
  skipn (List.length s - n)%nat s.

(** The scan of [s.replace(old, new)] for a non-empty [old]: left to right,
    matches do not overlap; [skip] counts the characters of the current
    match still to be dropped. *)
Fixpoint replace_from (old new : pystr) (skip : nat) (s : pystr) : pystr :=
  match s with
  | [] => []
  | c :: s' =>
      match skip with
      | S k => replace_from old new k s'
      | O =>
          if startswith s old
          then new ++ replace_from old new (List.length old - 1)%nat s'
          else c :: replace_from old new 0%nat s'
      end
  end.

(** [s.replace(old, new)]; an empty [old] matches at every gap. *)
Definition replace (s old new : pystr) : pystr :=
  match old with
  | [] => new ++ flat_map (fun c => c :: new) s
  | _ :: _ => replace_from old new 0%nat s
  end.

(** Decimal text of an integer, as [str(n)] and [%d] print it. *)
Definition of_Z (z : Z) : pystr := u (NilZero.string_of_int (Z.to_int z)).
Definition of_nat (n : nat) : pystr := of_Z (Z.of_nat n).
Definition of_N (n : N) : pystr := of_Z (Z.of_N n).

End Str.

Import Str.

(* ================================================================== *)
(** * Python values and the standard library's JSON decoder *)
(* ================================================================== *)

Module Json.

Local Open Scope N_scope.

(** A Python [float] obtained from a JSON number: the decimal value
    [mantissa * 10 ^ exp10] (which [float()] rounds), or a special value. *)
Inductive pyfloat : Type :=
| FDec (neg : bool) (mantissa : N) (exp10 : Z)
| FNaN
| FInf (neg : bool).

(** The Python values [json.loads] returns. [None] is both JSON [null] and
    the absent payload. A [dict] is kept as its items in insertion order.
    The decoder below follows CPython's scanner for [str] documents,
    with the two limits of the interpreter it can run into: the recursion
    depth and the number of digits of an integer. *)
Inductive pyvalue : Type :=
| PyNone
| PyBool (b : bool)
| PyInt (n : Z)
| PyFloat (f : pyfloat)
| PyStr (s : pystr)
| PyList (items : list pyvalue)
| PyDict (items : list (pystr * pyvalue)).

(** [d[k] = v] on the items of a dict: an existing key keeps its place. *)
Fixpoint dict_set (V : Type) (d : list (pystr * V)) (k : pystr) (v : V)
  : list (pystr * V) :=
  match d with
  | [] => [(k, v)]
  | (k', v') :: d' =>
      if Str.eqb k' k then (k', v) :: d' else (k', v') :: dict_set d' k v
  end.

Definition keys (V : Type) (d : list (pystr * V)) : list pystr := map fst d.
Definition values (V : Type) (d : list (pystr * V)) : list V := map snd d.

(** A float is zero when its decimal value rounds to zero, that is when it
    is at most [2 ^ -1075] in magnitude. *)
Definition float_is_zero (f : pyfloat) : bool :=
  match f with
  | FDec _ m e =>
      (m =? 0) ||
      ((e <? 0)%Z && (Z.of_N m * 2 ^ 1075 <=? 10 ^ (- e))%Z)
  | FNaN | FInf _ => false
  end.

(** Truth value of a Python value, as [if payload:] tests it. *)
Definition truthy (v : pyvalue) : bool :=
  match v with
  | PyNone => false
  | PyBool b => b
  | PyInt n => negb (n =? 0)%Z
  | PyFloat f => negb (float_is_zero f)
  | PyStr s => negb (Str.eqb s [])
  | PyList l => match l with [] => false | _ :: _ => true end
  | PyDict d => match d with [] => false | _ :: _ => true end
  end.

Definition is_dict (v : pyvalue) : bool :=
  match v with PyDict _ => true | _ => false end.

Definition is_none (v : pyvalue) : bool :=
  match v with PyNone => true | _ => false end.

(** ** The limits of the interpreter *)

(** The exceptions other than [json.JSONDecodeError] that [json.loads]
    raises on a [str] document: [RecursionError] when the nesting of arrays
    and objects exhausts the recursion limit, and [ValueError] when an
    integer literal has more digits than [int] converts. *)
Inductive fault : Type :=
| RecursionError
| ValueError.

(** [max_depth]: how many arrays and objects, one inside the other, the
    scanner can enter before the interpreter's recursion limit is reached;
    it depends on the interpreter, on [sys.setrecursionlimit] and on the
    depth of the call. [max_str_digits]: [sys.get_int_max_str_digits()],
    0 when the interpreter has no such limit. *)
Record Limits : Type := mkLimits {
  max_depth : nat;
  max_str_digits : nat
}.

(** The test of [PyLong_FromString] on the number of digits of a decimal
    literal: the limit is looked at above 640 digits only. *)
Definition over_digit_limit (L : Limits) (digits : nat) : bool :=
  ((640 <? digits) && (0 <? max_str_digits L)
   && (max_str_digits L <? digits))%nat.

(** ** The scanner *)

(** Result of scanning a value at some position of the document. Positions
    are kept as the number of characters that remain from the position to
    the end of the document. *)
Inductive scan (A : Type) : Type :=
| Scanned (a : A) (rest : pystr)
| Failed (msg : pystr) (remaining : nat)
| Stop (remaining : nat)
| Fault (f : fault)
| OutOfFuel.

Arguments Failed {A} msg remaining.
Arguments Stop {A} remaining.
Arguments Fault {A} f.
Arguments OutOfFuel {A}.

Definition is_ws (c : N) : bool :=
  (c =? 32) || (c =? 9) || (c =? 10) || (c =? 13).

Definition skip_ws (s : pystr) : pystr := Str.lstrip_by is_ws s.

Definition is_digit (c : N) : bool := (48 <=? c) && (c <=? 57).

Definition hexval (c : N) : option N :=
  if is_digit c then Some (c - 48)
  else if (97 <=? c) && (c <=? 102) then Some (c - 87)
  else if (65 <=? c) && (c <=? 70) then Some (c - 55)
  else None.

Definition hex4 (a b c d : N) : option N :=
  match hexval a, hexval b, hexval c, hexval d with
  | Some x, Some y, Some z, Some w => Some (((x * 16 + y) * 16 + z) * 16 + w)
  | _, _, _, _ => None
  end.

Definition is_high_surrogate (c : N) : bool := (55296 <=? c) && (c <=? 56319).
Definition is_low_surrogate (c : N) : bool := (56320 <=? c) && (c <=? 57343).

Definition join_surrogates (hi lo : N) : N :=
  65536 + N.lor (N.shiftl (hi - 55296) 10) (lo - 56320).

(** The one-character escapes of a JSON string. *)
Definition simple_escape (e : N) : option N :=
  if e =? dquote then Some dquote
  else if e =? backslash then Some backslash
  else if e =? cp "/" then Some (cp "/")
  else if e =? cp "b" then Some 8
  else if e =? cp "f" then Some 12
  else if e =? cp "n" then Some 10
  else if e =? cp "r" then Some 13
  else if e =? cp "t" then Some 9
  else None.

Definition unterminated : pystr := u "Unterminated string starting at".
Definition bad_uXXXX : pystr := u "Invalid \uXXXX escape".

(** [scanstring]: the text after an opening quote, in strict mode.
    [begin] locates the opening quote, [acc] holds the characters decoded
    so far, last first. *)
Fixpoint scanstring (begin : nat) (acc : pystr) (s : pystr) {struct s}
  : scan pystr :=
  match s with
  | [] => Failed unterminated begin
  | c :: t =>
      if c =? dquote then Scanned (rev acc) t
      else if c =? backslash then
        match t with
        | [] => Failed unterminated begin
        | e :: t1 =>
            if e =? cp "u" then
              match t1 with
              | h1 :: h2 :: h3 :: h4 :: t2 =>
                  match t2 with
                  | [] => Failed bad_uXXXX (List.length t)
                  | _ :: _ =>
                      match hex4 h1 h2 h3 h4 with
                      | None => Failed bad_uXXXX (List.length t)
                      | Some c1 =>
                          if is_high_surrogate c1 then
                            match t2 with
                            | b :: e2 :: g1 :: g2 :: g3 :: g4 :: t3 =>
                                match t3 with
                                | [] => scanstring begin (c1 :: acc) t2
                                | _ :: _ =>
                                    if (b =? backslash) && (e2 =? cp "u") then
                                      match hex4 g1 g2 g3 g4 with
                                      | None =>
                                          Failed bad_uXXXX
                                            (List.length t2 - 1)
                                      | Some c2 =>
                                          if is_low_surrogate c2
                                          then scanstring begin
                                                 (join_surrogates c1 c2 :: acc)
                                                 t3
                                          else scanstring begin (c1 :: acc) t2
                                      end
                                    else scanstring begin (c1 :: acc) t2
                                end
                            | _ => scanstring begin (c1 :: acc) t2
                            end
                          else scanstring begin (c1 :: acc) t2
                      end
                  end
              | _ => Failed bad_uXXXX (List.length t)
              end
            else
              match simple_escape e with
              | Some d => scanstring begin (d :: acc) t1
              | None => Failed (u "Invalid \escape") (List.length s)
              end
        end
      else if c <=? 31 then
        Failed (u "Invalid control character at") (List.length s)
      else scanstring begin (c :: acc) t
  end.

Fixpoint span (p : N -> bool) (s : pystr) : pystr * pystr :=
  match s with
  | [] => ([], [])
  | c :: t =>
      if p c then let (a, b) := span p t in (c :: a, b) else ([], s)
  end.

(** Value of a run of decimal digits. *)
Definition digits_value (ds : pystr) : N :=
  fold_left (fun acc d => acc * 10 + (d - 48)) ds 0.

(** The integer part of a number: one [0], or a non-zero digit and the
    digits after it. *)
Definition int_part (s : pystr) : option (pystr * pystr) :=
  match s with
  | [] => None
  | c :: t =>
      if (49 <=? c) && (c <=? 57) then
        let (ds, r) := span is_digit t in Some (c :: ds, r)
      else if c =? 48 then Some ([c], t)
      else None
  end.

(** The fraction: a dot followed by at least one digit. *)
Definition frac_part (s : pystr) : pystr * pystr :=
  match s with
  | d :: f :: _ =>
      if (d =? cp ".") && is_digit f then span is_digit (tl s) else ([], s)
  | _ => ([], s)
  end.

(** The exponent: [e] or [E], an optional sign, at least one digit;
    otherwise the scanner backtracks to before the [e]. *)
Definition exp_part (s : pystr) : option (bool * pystr) * pystr :=
  match s with
  | e :: (_ :: _) as t =>
      if (e =? cp "e") || (e =? cp "E") then
        let (sign, t1) :=
          match t with
          | sg :: (_ :: _) as t' =>
              if sg =? cp "-" then (true, t')
              else if sg =? cp "+" then (false, t')
              else (false, t)
          | _ => (false, t)
          end in
        let (ds, r) := span is_digit t1 in
        match ds with
        | [] => (None, s)
        | _ :: _ => (Some (sign, ds), r)
        end
      else (None, s)
  | _ => (None, s)
  end.

(** [_match_number]: an integer becomes an [int], unless it has too many
    digits for [int]; a number with a fraction or an exponent becomes a
    [float]. *)
Definition match_number (L : Limits) (s : pystr) : scan pyvalue :=
  let start := List.length s in
  let (neg, s1) :=
    match s with
    | c :: t => if c =? cp "-" then (true, t) else (false, s)
    | [] => (false, s)
    end in
  match int_part s1 with
  | None => Stop start
  | Some (ids, r1) =>
      let (fds, r2) := frac_part r1 in
      let (ex, r3) := exp_part r2 in
      match fds, ex with
      | [], None =>
          if over_digit_limit L (List.length ids) then Fault ValueError
          else
            let n := Z.of_N (digits_value ids) in
            Scanned (PyInt (if neg then (- n)%Z else n)) r3
      | _, _ =>
          let e := match ex with
                   | Some (sg, eds) =>
                       let v := Z.of_N (digits_value eds) in
                       if sg then (- v)%Z else v
                   | None => 0%Z
                   end in
          Scanned
            (PyFloat (FDec neg (digits_value (ids ++ fds))
                        (e - Z.of_nat (List.length fds))%Z))
            r3
      end
  end.

Definition map_scan (A B : Type) (f : A -> B) (r : scan A) : scan B :=
  match r with
  | Scanned a rest => Scanned (f a) rest
  | Failed msg k => Failed msg k
  | Stop k => Stop k
  | Fault f => Fault f
  | OutOfFuel => OutOfFuel
  end.

Definition expecting_name : pystr :=
  u "Expecting property name enclosed in double quotes".
Definition expecting_colon : pystr := u "Expecting ':' delimiter".
Definition expecting_comma : pystr := u "Expecting ',' delimiter".

(** [scan_once] and the loops of [_parse_object] and [_parse_array]. The
    recursion follows the nesting of the document; [fuel] bounds it, and
    [scan_fuel] shows that the length of the text is always enough.
    [depth] is the number of arrays and objects the scanner can still
    enter: entering one is a recursive call of the interpreter, which
    raises [RecursionError] when none is left. *)
Fixpoint scan_once (L : Limits) (fuel depth : nat) (s : pystr) {struct fuel}
  : scan pyvalue :=
  match fuel with
  | O => OutOfFuel
  | S fuel' =>
      match s with
      | [] => Stop 0
      | c :: t =>
          if c =? dquote then map_scan PyStr (scanstring (List.length s) [] t)
          else if c =? cp "{" then
            match depth with
            | O => Fault RecursionError
            | S depth' =>
                match skip_ws t with
                | c1 :: r =>
                    if c1 =? cp "}" then Scanned (PyDict []) r
                    else object_loop L fuel' depth' [] (skip_ws t)
                | [] => object_loop L fuel' depth' [] (skip_ws t)
                end
            end
          else if c =? cp "[" then
            match depth with
            | O => Fault RecursionError
            | S depth' =>
                match skip_ws t with
                | c1 :: r =>
                    if c1 =? cp "]" then Scanned (PyList []) r
                    else array_loop L fuel' depth' [] (skip_ws t)
                | [] => array_loop L fuel' depth' [] (skip_ws t)
                end
            end
          else if startswith s (u "null") then Scanned PyNone (skipn 4 s)
          else if startswith s (u "true") then
            Scanned (PyBool true) (skipn 4 s)
          else if startswith s (u "false") then
            Scanned (PyBool false) (skipn 5 s)
          else if startswith s (u "NaN") then
            Scanned (PyFloat FNaN) (skipn 3 s)
          else if startswith s (u "Infinity") then
            Scanned (PyFloat (FInf false)) (skipn 8 s)
          else if startswith s (u "-Infinity") then
            Scanned (PyFloat (FInf true)) (skipn 9 s)
          else match_number L s
      end
  end

with object_loop (L : Limits) (fuel depth : nat)
  (acc : list (pystr * pyvalue)) (s : pystr) {struct fuel} : scan pyvalue :=
  match fuel with
  | O => OutOfFuel
  | S fuel' =>
      match s with
      | [] => Failed expecting_name 0
      | c :: t =>
          if c =? dquote then
            match scanstring (List.length s) [] t with
            | Scanned key r1 =>
                match skip_ws r1 with
                | [] => Failed expecting_colon 0
                | c2 :: r3 =>
                    if c2 =? cp ":" then
                      match scan_once L fuel' depth (skip_ws r3) with
                      | Scanned val r5 =>
                          let acc' := dict_set acc key val in
                          match skip_ws r5 with
                          | [] => Failed expecting_comma 0
                          | c3 :: r7 =>
                              if c3 =? cp "}" then Scanned (PyDict acc') r7
                              else if c3 =? cp "," then
                                object_loop L fuel' depth acc' (skip_ws r7)
                              else Failed expecting_comma
                                     (List.length (skip_ws r5))
                          end
                      | Failed msg k => Failed msg k
                      | Stop k => Stop k
                      | Fault f => Fault f
                      | OutOfFuel => OutOfFuel
                      end
                    else Failed expecting_colon (List.length (skip_ws r1))
                end
            | Failed msg k => Failed msg k
            | Stop k => Stop k
            | Fault f => Fault f
            | OutOfFuel => OutOfFuel
            end
          else Failed expecting_name (List.length s)
      end
  end

with array_loop (L : Limits) (fuel depth : nat) (acc : list pyvalue)
  (s : pystr) {struct fuel} : scan pyvalue :=
  match fuel with
  | O => OutOfFuel
  | S fuel' =>
      match scan_once L fuel' depth s with
      | Scanned val r1 =>
          match skip_ws r1 with
          | [] => Failed expecting_comma 0
          | c :: r3 =>
              if c =? cp "]" then Scanned (PyList (rev (val :: acc))) r3
              else if c =? cp "," then
                array_loop L fuel' depth (val :: acc) (skip_ws r3)
              else Failed expecting_comma (List.length (skip_ws r1))
          end
      | Failed msg k => Failed msg k
      | Stop k => Stop k
      | Fault f => Fault f
      | OutOfFuel => OutOfFuel
      end
  end.

(** ** [json.loads] *)

(** A [json.JSONDecodeError]: message, document and position. *)
Record JSONDecodeError : Type := mkError {
  err_msg : pystr;
  err_doc : pystr;
  err_pos : nat
}.

Definition lineno (e : JSONDecodeError) : nat :=
  count_occ N.eq_dec (firstn (err_pos e) (err_doc e)) newline + 1.

Definition colno (e : JSONDecodeError) : nat :=
  List.length (last_item (split newline (firstn (err_pos e) (err_doc e)))) + 1.

(** [str(e)] *)
Definition str_of_error (e : JSONDecodeError) : pystr :=
  err_msg e ++ u ": line " ++ Str.of_nat (lineno e)
  ++ u " column " ++ Str.of_nat (colno e)
  ++ u " (char " ++ Str.of_nat (err_pos e) ++ u ")".

(** How [json.loads] ends: with a value, with a [json.JSONDecodeError], or
    with one of the other two exceptions. *)
Inductive decoded : Type :=
| Decoded (v : pyvalue)
| DecodeError (e : JSONDecodeError)
| DecodeFault (f : fault).

(** The fuel [json_loads] gives the scanner. *)
Definition enough_fuel (s : pystr) : nat := S (2 * List.length s).

(** [json.loads(s)] for a [str] argument: skip white space, scan one value,
    skip white space, and require the end of the document. *)
Definition json_loads (L : Limits) (s : pystr) : decoded :=
  let at_pos (k : nat) := (List.length s - k)%nat in
  if startswith s [65279] then
    DecodeError
      (mkError (u "Unexpected UTF-8 BOM (decode using utf-8-sig)") s 0)
  else
    match scan_once L (enough_fuel s) (max_depth L) (skip_ws s) with
    | Scanned v r =>
        match skip_ws r with
        | [] => Decoded v
        | _ :: _ =>
            DecodeError
              (mkError (u "Extra data") s (at_pos (List.length (skip_ws r))))
        end
    | Failed msg k => DecodeError (mkError msg s (at_pos k))
    | Stop k => DecodeError (mkError (u "Expecting value") s (at_pos k))
    | Fault f => DecodeFault f
    | OutOfFuel => DecodeError (mkError (u "Expecting value") s 0)
    end.

(** [json.loads(s)] returns a value. *)
Definition is_valid_json (L : Limits) (s : pystr) : bool :=
  match json_loads L s with Decoded _ => true | _ => false end.

End Json.

Import Json.

(* ================================================================== *)
(** * The world the program runs in *)
(* ================================================================== *)

Module Runtime.

(** A [requests.Response], as far as the program reads it. [text] is the
    decoded body; [json()] decodes that same text. [elapsed] is in
    microseconds. *)
Record Response : Type := mkResponse {
  status_code : Z;
  reason : pystr;
  resp_url : pystr;
  resp_headers : list (pystr * pystr);
  text : pystr;
  content_size : N;
  elapsed : N
}.

(** A file object returned by [open(path, 'rb')]. *)
Record handle : Type := mkHandle {
  fd : nat;
  path : pystr
}.

(** What is passed to [requests.request] besides method, URL and headers:
    nothing, [json=payload], or [files=files, data=data]. *)
Inductive body : Type :=
| NoBody
| JsonBody (payload : pyvalue)
| MultipartBody (files : list (pystr * handle)) (data : list (pystr * pyvalue)).

Record Request : Type := mkRequest {
  req_method : pystr;
  req_url : pystr;
  req_headers : list (pystr * pystr);
  req_body : body;
  req_timeout : Z
}.

(** What [requests.request] does with a request: a response, a
    [requests.exceptions.RequestException], or any other exception. *)
Inductive transport_result : Type :=
| Responded (r : Response)
| RequestException (msg : pystr)
| OtherException (name : pystr).

(** The answers of the operating system, the network and the libraries the
    program calls but does not define. Unicode case mapping, the text that
    [json.dumps], [repr] and floating-point formatting produce, and the
    BeautifulSoup extraction in the [try] block of [format_html_response]
    ([None] when it raises) are left uninterpreted; [json.dumps] and [repr]
    give [None] when they exhaust the recursion limit on a deeply nested
    value and raise [RecursionError]. [loads_limits] are the
    limits of the interpreter where [parse_json_payload] calls
    [json.loads], [response_limits] those where [format_response] calls
    [response.json()]. *)
Record Platform : Type := mkPlatform {
  getenv : pystr -> option pystr;
  expanduser : pystr -> pystr;
  isfile : pystr -> bool;
  getsize : pystr -> N;
  str_lower : pystr -> pystr;
  str_upper : pystr -> pystr;
  json_dumps : pyvalue -> option nat -> bool -> option pystr;
  py_repr : pyvalue -> option pystr;
  format_kb : N -> pystr;
  format_ms : N -> pystr;
  html_extract : pystr -> option pystr;
  requests_request : Request -> transport_result;
  loads_limits : Limits;
  response_limits : Limits
}.

(** The observable state of one invocation: what was printed, which
    requests were issued, which files were opened and which were closed. *)
Record World : Type := mkWorld {
  stdout : pystr;
  sent : list Request;
  opened : list handle;
  closed : list handle
}.

Definition initial_world : World := mkWorld [] [] [] [].

(** Exceptions the program can meet. *)
Inductive exn : Type :=
| AttributeError
| RequestsError (msg : pystr)
| OtherError (name : pystr).

(** The exception a fault of the decoder is. *)
Definition fault_exn (f : fault) : exn :=
  match f with
  | RecursionError => OtherError (u "RecursionError")
  | ValueError => OtherError (u "ValueError")
  end.

(** How a piece of the program ends: normally, through [sys.exit], or with
    an exception on its way up. *)
Inductive outcome (A : Type) : Type :=
| Return (a : A)
| Exit (code : Z)
| Raise (e : exn).

Arguments Exit {A} code.
Arguments Raise {A} e.

Definition M (A : Type) : Type := World -> outcome A * World.

Definition ret (A : Type) (a : A) : M A := fun w => (Return a, w).

Definition bind (A B : Type) (m : M A) (k : A -> M B) : M B :=
  fun w =>
    match m w with
    | (Return a, w') => k a w'
    | (Exit c, w') => (Exit c, w')
    | (Raise e, w') => (Raise e, w')
    end.

Declare Scope py_scope.
Delimit Scope py_scope with py.
Notation "x <- m ;; k" := (bind m (fun x => k))
  (at level 61, m at next level, right associativity) : py_scope.
Notation "m ;; k" := (bind m (fun _ => k))
  (at level 61, right associativity) : py_scope.
Local Open Scope py_scope.

(** [sys.exit(code)] *)
Definition sys_exit (A : Type) (code : Z) : M A := fun w => (Exit code, w).

Definition raise (A : Type) (e : exn) : M A := fun w => (Raise e, w).

Arguments sys_exit {A} code%_Z.
Arguments raise {A} e.

(** The text a library call computes, or the [RecursionError] it raises. *)
Definition text_or_raise (t : option pystr) : M pystr :=
  match t with
  | Some s => ret s
  | None => raise (fault_exn RecursionError)
  end.

(** The world after [s] has been written to standard output. *)
Definition emit (s : pystr) (w : World) : World :=
  mkWorld (stdout w ++ s) (sent w) (opened w) (closed w).

(** [print(s, end='')] *)
Definition write (s : pystr) : M unit := fun w => (Return tt, emit s w).

(** [print(s)] *)
Definition print (s : pystr) : M unit := write (s ++ [newline]).

(** [open(file_path, 'rb')] on a path that names a regular file: a new
    file object. File permissions are not modelled. *)
Definition open_rb (file_path : pystr) : M handle :=
  fun w =>
    let h := mkHandle (List.length (opened w)) file_path in
    (Return h, mkWorld (stdout w) (sent w) (opened w ++ [h]) (closed w)).

(** [file_obj.close()] *)
Definition close (h : handle) : M unit :=
  fun w => (Return tt, mkWorld (stdout w) (sent w) (opened w) (closed w ++ [h])).

(** [requests.request(...)]: the request goes out, the platform answers. *)
Definition request (P : Platform) (req : Request) : M Response :=
  fun w =>
    let w' := mkWorld (stdout w) (sent w ++ [req]) (opened w) (closed w) in
    match requests_request P req with
    | Responded r => (Return r, w')
    | RequestException msg => (Raise (RequestsError msg), w')
    | OtherException name => (Raise (OtherError name), w')
    end.

(** [try: m finally: cleanup] *)
Definition try_finally (A : Type) (m : M A) (cleanup : M unit) : M A :=
  fun w =>
    let (o, w1) := m w in
    match cleanup w1 with
    | (Return _, w2) => (o, w2)
    | (Exit c, w2) => (Exit c, w2)
    | (Raise e, w2) => (Raise e, w2)
    end.

(** [try: m except requests.exceptions.RequestException as e: handler] *)
Definition try_except_request (A : Type) (m : M A) (handler : pystr -> M A)
  : M A :=
  fun w =>
    match m w with
    | (Raise (RequestsError msg), w1) => handler msg w1
    | other => other
    end.

(** [for x in l: f(x)] *)
Fixpoint for_each (A : Type) (l : list A) (f : A -> M unit) : M unit :=
  match l with
  | [] => ret tt
  | x :: l' => f x ;; for_each l' f
  end.

(** [if cond: m] *)
Definition when (cond : bool) (m : M unit) : M unit :=
  if cond then m else ret tt.

(** The exit status the shell sees: the argument of [sys.exit], 1 after an
    uncaught exception, 0 when the script runs to its end. *)
Definition exit_status (A : Type) (o : outcome A) : Z :=
  match o with
  | Return _ => 0
  | Exit c => c
  | Raise _ => 1
  end.

End Runtime.

Import Runtime.

(* ================================================================== *)
(** * The program *)
(* ================================================================== *)

Module Mealie.

Local Open Scope py_scope.

(** An ASCII literal in which every backquote stands for a double quote. *)
Definition bq (s : string) : pystr :=
  map (fun c => if N.eqb c 96 then dquote else c) (u s).

(** ** [class Colors] *)
Module Colors.
Definition RED : pystr := 27%N :: u "[0;31m".
Definition GREEN : pystr := 27%N :: u "[0;32m".
Definition YELLOW : pystr := 27%N :: u "[1;33m".
Definition BLUE : pystr := 27%N :: u "[0;34m".
Definition MAGENTA : pystr := 27%N :: u "[0;35m".
Definition CYAN : pystr := 27%N :: u "[0;36m".
Definition NC : pystr := 27%N :: u "[0m".
End Colors.

Definition print_color (color message : pystr) : M unit :=
  print (color ++ message ++ Colors.NC).

Definition show_usage : M unit :=
  print (u "Usage: mealie-api.py <endpoint> [json_payload] [http_method] [-m|--multipart] [-r|--raw] [-v|--verbose]") ;;
  print [] ;;
  print (u "Arguments:") ;;
  print (u "  endpoint      - API endpoint (e.g., recipes, users/self)") ;;
  print (u "  json_payload  - JSON data for POST/PUT requests (optional)") ;;
  print (u "  http_method   - HTTP method: GET, POST, PUT, DELETE (default: GET, or POST if payload provided)") ;;
  print [] ;;
  print (u "Options:") ;;
  print (u "  -m, --multipart - Use multipart/form-data content type instead of JSON") ;;
  print (u "  -r, --raw       - Output raw response without status codes or formatting") ;;
  print (u "                    useful for piping to other tools or scripts") ;;
  print (u "  -v, --verbose   - Show detailed HTTP request information for debugging") ;;
  print [] ;;
  print (u "Examples:") ;;
  print (u "  mealie-api.py recipes") ;;
  print (u "  mealie-api.py recipes --raw") ;;
  print (u "  mealie-api.py recipes --verbose") ;;
  print (bq "  mealie-api.py recipes '{`name`:`My Recipe`}' POST") ;;
  print (bq "  mealie-api.py recipes/123 '{`name`:`Updated Recipe`}' PUT") ;;
  print (u "  mealie-api.py recipes/123 '' DELETE") ;;
  print (bq "  mealie-api.py recipes/import-url '{`url`:`https://example.com`}' POST --multipart") ;;
  print (bq "  mealie-api.py groups/migrations '{`migration_type`:`nextcloud`,`archive`:`~/path/to/file.zip`}' POST --multipart") ;;
  print [] ;;
  print (u "See: https://docs.mealie.io/api/redoc/ for API documentation.") ;;
  print [].

(** [not s] for an optional string: [None] and the empty string are false. *)
Definition falsy (s : option pystr) : bool :=
  match s with
  | None => true
  | Some [] => true
  | Some (_ :: _) => false
  end.

Definition or_empty (s : option pystr) : pystr :=
  match s with Some x => x | None => [] end.

(** The sixteen replacements of [parse_json_payload], in source order. *)
Definition fix_shell_escapes (payload : pystr) : pystr :=
  let fixed_payload := replace payload (u "\ ") (u " ") in
  let fixed_payload := replace fixed_payload (u "\(") (u "(") in
  let fixed_payload := replace fixed_payload (u "\)") (u ")") in
  let fixed_payload := replace fixed_payload (u "\&") (u "&") in
  let fixed_payload := replace fixed_payload (u "\[") (u "[") in
  let fixed_payload := replace fixed_payload (u "\]") (u "]") in
  let fixed_payload := replace fixed_payload (u "\{") (u "{") in
  let fixed_payload := replace fixed_payload (u "\}") (u "}") in
  let fixed_payload := replace fixed_payload (u "\;") (u ";") in
  let fixed_payload := replace fixed_payload (u "\>") (u ">") in
  let fixed_payload := replace fixed_payload (u "\<") (u "<") in
  let fixed_payload := replace fixed_payload (u "\|") (u "|") in
  let fixed_payload := replace fixed_payload (u "\$") (u "$") in
  let fixed_payload := replace fixed_payload (u "\`") (u "`") in
  let fixed_payload := replace fixed_payload (u "\'") (u "'") in
  let fixed_payload := replace fixed_payload [backslash; dquote] [dquote] in
  fixed_payload.

(** Both [except] clauses name [json.JSONDecodeError]: any other exception
    of [json.loads] goes up. *)
Definition parse_json_payload (P : Platform) (payload : pystr) : M pyvalue :=
  if Str.eqb payload [] || Str.eqb (strip payload) [] then ret PyNone
  else
    match json_loads (loads_limits P) payload with
    | Decoded v => ret v
    | DecodeFault f => raise (fault_exn f)
    | DecodeError _ =>
        let fixed_payload := fix_shell_escapes payload in
        print_color Colors.CYAN (u "Fixed shell escapes in JSON payload") ;;
        match json_loads (loads_limits P) fixed_payload with
        | Decoded v => ret v
        | DecodeFault f => raise (fault_exn f)
        | DecodeError e =>
            print_color Colors.RED
              (u "Error: Invalid JSON payload - " ++ str_of_error e) ;;
            print_color Colors.YELLOW (u "Original payload: " ++ payload) ;;
            print_color Colors.YELLOW (u "Attempted fix: " ++ fixed_payload) ;;
            sys_exit 1
        end
    end.

Definition build_url (base_url endpoint : pystr) : pystr :=
  let endpoint :=
    if startswith endpoint (u "/") then u "/api" ++ endpoint
    else u "/api/" ++ endpoint in
  base_url ++ endpoint.

(** [str(value)] inside an f-string. *)
Definition format_value (P : Platform) (value : pyvalue) : option pystr :=
  match value with
  | PyStr s => Some s
  | _ => py_repr P value
  end.

Section WithPlatform.

Variable P : Platform.

Definition validate_environment : M (pystr * pystr) :=
  let mealie_url := getenv P (u "MEALIE_URL") in
  let mealie_token := getenv P (u "MEALIE_TOKEN") in
  when (falsy mealie_url)
    (print_color Colors.RED
       (u "Error: MEALIE_URL environment variable is not set") ;;
     print (u "Set it with: export MEALIE_URL='https://your-mealie-instance.com'") ;;
     sys_exit 1) ;;
  when (falsy mealie_token)
    (print_color Colors.RED
       (u "Error: MEALIE_TOKEN environment variable is not set") ;;
     print (u "Set it with: export MEALIE_TOKEN='your-api-token'") ;;
     sys_exit 1) ;;
  ret (rstrip [cp "/"] (or_empty mealie_url), or_empty mealie_token).

Definition file_key_names : list pystr :=
  [u "archive"; u "file"; u "upload"; u "attachment"].

(** The test that [prepare_file_upload] and [print_verbose_request] both
    apply to a key and its value. *)
Definition is_file_reference (key : pystr) (value : pyvalue) : bool :=
  match value with
  | PyStr v =>
      mem_str (str_lower P key) file_key_names
      || startswith v (u "~/")
      || startswith v (u "/")
      || contains (u ".") (last_item (split (cp "/") v))
  | _ => false
  end.

Definition value_text (value : pyvalue) : pystr :=
  match value with PyStr v => v | _ => [] end.

Definition upload : Type := list (pystr * handle) * list (pystr * pyvalue).

(** The loop of [prepare_file_upload] over [payload.items()]. *)
Fixpoint prepare_items (items : list (pystr * pyvalue))
  (files : list (pystr * handle)) (data : list (pystr * pyvalue))
  : M upload :=
  match items with
  | [] => ret (files, data)
  | (key, value) :: rest =>
      if is_file_reference key value then
        let file_path := expanduser P (value_text value) in
        if isfile P file_path then
          print_color Colors.CYAN
            (u "Adding file upload: " ++ key ++ u " -> " ++ file_path) ;;
          h <- open_rb file_path ;;
          prepare_items rest (dict_set files key h) data
        else
          print_color Colors.RED (u "Error: File not found: " ++ file_path) ;;
          sys_exit 1
      else prepare_items rest files (dict_set data key value)
  end.

(** [payload.items()] exists on a dict only. *)
Definition prepare_file_upload (payload : pyvalue) : M upload :=
  match payload with
  | PyDict items => prepare_items items [] []
  | _ => raise AttributeError
  end.

Definition determine_method (payload : pyvalue) (method : option pystr)
  : pystr :=
  if negb (falsy method) then str_upper P (or_empty method)
  else if negb (is_none payload) then u "POST"
  else u "GET".

Definition size_text (n : N) : pystr :=
  if (1024 <? n)%N then format_kb P n ++ u " KB" else Str.of_N n ++ u " bytes".

Definition print_header (kv : pystr * pystr) : M unit :=
  let (key, value) := kv in
  if Str.eqb (str_lower P key) (u "authorization")
     && startswith value (u "Bearer ")
  then
    let token := skipn 7 value in
    let masked_token :=
      if (12 <? List.length token)%nat
      then firstn 8 token ++ u "..." ++ last_n 4 token
      else u "***" in
    print (u "  " ++ key ++ u ": Bearer " ++ masked_token)
  else print (u "  " ++ key ++ u ": " ++ value).

Definition print_field (kv : pystr * pyvalue) : M unit :=
  let (key, value) := kv in
  if is_file_reference key value then
    let file_path := expanduser P (value_text value) in
    if isfile P file_path then
      print (u "  " ++ key ++ u ": " ++ file_path
             ++ u " (" ++ size_text (getsize P file_path) ++ u ")")
    else
      shown <- text_or_raise (format_value P value) ;;
      print (u "  " ++ key ++ u ": " ++ shown ++ u " (FILE NOT FOUND)")
  else
    shown <- text_or_raise (format_value P value) ;;
    print (u "  " ++ key ++ u ": " ++ shown).

Definition print_verbose_request (url method : pystr)
  (headers : list (pystr * pystr)) (payload : pyvalue) (multipart : bool)
  : M unit :=
  print_color Colors.BLUE (u "=== HTTP REQUEST DEBUG INFO ===") ;;
  print (u "URL: " ++ url) ;;
  print (u "Method: " ++ method) ;;
  print (u "Timeout: 30 seconds") ;;
  print (u "Content Type: "
         ++ (if multipart then u "multipart/form-data"
             else u "application/json")) ;;
  print [] ;;
  print_color Colors.YELLOW (u "Headers:") ;;
  for_each headers print_header ;;
  print [] ;;
  if truthy payload then
    (if multipart then
       print_color Colors.YELLOW (u "Request Body (Multipart Form Data):") ;;
       match payload with
       | PyDict items => for_each items print_field
       | _ => raise AttributeError
       end
     else
       print_color Colors.YELLOW (u "Request Body (JSON):") ;;
       dumped <- text_or_raise (json_dumps P payload (Some 2%nat) true) ;;
       print dumped) ;;
    print []
  else
    print_color Colors.YELLOW (u "Request Body: (empty)") ;;
    print [].

Definition print_verbose_response (response : Response) : M unit :=
  print_color Colors.BLUE (u "=== HTTP RESPONSE DEBUG INFO ===") ;;
  print (u "Status Code: " ++ Str.of_Z (status_code response)) ;;
  print (u "Reason: " ++ reason response) ;;
  print (u "URL: " ++ resp_url response) ;;
  print (u "Response Time: " ++ format_ms P (elapsed response) ++ u "ms") ;;
  print [] ;;
  print_color Colors.YELLOW (u "Response Headers:") ;;
  for_each (resp_headers response)
    (fun kv => print (u "  " ++ fst kv ++ u ": " ++ snd kv)) ;;
  print [] ;;
  print (u "Response Size: " ++ size_text (content_size response)) ;;
  print [].

Definition body_methods : list pystr := [u "POST"; u "PUT"; u "PATCH"].

Definition make_request (url method : pystr) (headers : list (pystr * pystr))
  (payload : pyvalue) (multipart : bool) : M Response :=
  try_except_request
    (if mem_str method body_methods && negb (is_none payload) then
       if multipart then
         upload_data <- prepare_file_upload payload ;;
         let files := fst upload_data in
         let data := snd upload_data in
         let multipart_headers :=
           filter
             (fun kv => negb (Str.eqb (str_lower P (fst kv)) (u "content-type")))
             headers in
         try_finally
           (request P
              (mkRequest method url multipart_headers
                 (MultipartBody files data) 30))
           (for_each (values files) close)
       else request P (mkRequest method url headers (JsonBody payload) 30)
     else request P (mkRequest method url headers NoBody 30))
    (fun e =>
       print_color Colors.RED (10007%N :: u " Request failed: " ++ e) ;;
       sys_exit 1).

Definition format_html_response (html_content : pystr) : pystr :=
  match html_extract P html_content with
  | Some result =>
      if negb (Str.eqb (strip result) []) then result else html_content
  | None => html_content
  end.

(** [response.headers.get(name, '')] on a case-insensitive dict. *)
Definition headers_get (headers : list (pystr * pystr)) (name : pystr)
  : pystr :=
  match find (fun kv => Str.eqb (str_lower P (fst kv)) (str_lower P name))
          headers with
  | Some kv => snd kv
  | None => []
  end.

Definition is_success (status : Z) : bool :=
  ((200 <=? status) && (status <? 300))%Z.

Definition print_status (status : Z) : M unit :=
  let code := Str.of_Z status in
  if is_success status then
    print_color Colors.GREEN (10003%N :: u " Success (HTTP " ++ code ++ u ")")
  else if ((400 <=? status) && (status <? 500))%Z then
    print_color Colors.RED (10007%N :: u " Client Error (HTTP " ++ code ++ u ")")
  else if ((500 <=? status) && (status <? 600))%Z then
    print_color Colors.RED (10007%N :: u " Server Error (HTTP " ++ code ++ u ")")
  else
    print_color Colors.YELLOW (u "! Unexpected Status (HTTP " ++ code ++ u ")").

Definition format_response (response : Response) (raw_output verbose : bool)
  : M unit :=
  when verbose (print_verbose_response response) ;;
  if raw_output then write (text response)
  else
    print_status (status_code response) ;;
    let content := strip (text response) in
    if Str.eqb content [] then
      if is_success (status_code response) then
        print_color Colors.YELLOW (u "Success but no response body received")
      else print_color Colors.YELLOW (u "No response body received")
    else
      print (newline :: u "Response:") ;;
      let content_type :=
        str_lower P (headers_get (resp_headers response) (u "content-type")) in
      if contains (u "application/json") content_type then
        match json_loads (response_limits P) (text response) with
        | Decoded json_data =>
            dumped <-
              text_or_raise (json_dumps P json_data (Some 2%nat) false) ;;
            print dumped
        | DecodeError _ =>
            print_color Colors.YELLOW
              (u "Response claims to be JSON but is not valid JSON:") ;;
            print content
        | DecodeFault f => raise (fault_exn f)
        end
      else if contains (u "text/html") content_type then
        print_color Colors.YELLOW (u "HTML Response (parsed):") ;;
        print (format_html_response content)
      else
        when (negb (Str.eqb content_type []))
          (print_color Colors.YELLOW (u "Content-Type: " ++ content_type)) ;;
        print content.

(** [args.remove(x)]: the first occurrence goes. *)
Fixpoint remove_first (x : pystr) (args : list pystr) : list pystr :=
  match args with
  | [] => []
  | a :: args' => if Str.eqb a x then args' else a :: remove_first x args'
  end.

(** [if flag in args: var = True; args.remove(flag)] *)
Definition take_flag (flag : pystr) (var : bool) (args : list pystr)
  : bool * list pystr :=
  if mem_str flag args then (true, remove_first flag args) else (var, args).

Definition exit_code_for (status : Z) : Z :=
  if is_success status then 0%Z else 1%Z.

(** What [main] does once it holds the response. *)
Definition finish (response : Response) (raw_output verbose : bool) : M unit :=
  format_response response raw_output verbose ;;
  sys_exit (exit_code_for (status_code response)).

(** [main], with [argv] for [sys.argv[1:]]. *)
Definition main (argv : list pystr) : M unit :=
  let '(raw_output, args) := take_flag (u "-r") false argv in
  let '(raw_output, args) := take_flag (u "--raw") raw_output args in
  let '(verbose, args) := take_flag (u "-v") false args in
  let '(verbose, args) := take_flag (u "--verbose") verbose args in
  let '(multipart, args) := take_flag (u "-m") false args in
  let '(multipart, args) := take_flag (u "--multipart") multipart args in
  when (match args with
        | [] => true
        | a :: _ => mem_str a [u "-h"; u "--help"]
        end)
    (show_usage ;; sys_exit 0) ;;
  when (List.length args <? 1)%nat
    (print_color Colors.RED (u "Error: Missing endpoint argument") ;;
     show_usage ;;
     sys_exit 1) ;;
  let endpoint := nth 0 args [] in
  let json_payload_str := nth 1 args [] in
  let http_method := nth_error args 2 in
  env <- validate_environment ;;
  let base_url := fst env in
  let token := snd env in
  let url := build_url base_url endpoint in
  payload <- parse_json_payload P json_payload_str ;;
  let method := determine_method payload http_method in
  let headers :=
    [(u "Authorization", u "Bearer " ++ token);
     (u "Accept", u "application/json")] in
  let headers :=
    if negb multipart
    then dict_set headers (u "Content-Type") (u "application/json")
    else headers in
  (if verbose then print_verbose_request url method headers payload multipart
   else
     when (negb raw_output)
       (print_color Colors.BLUE
          (u "Making " ++ method ++ u " request to: " ++ url) ;;
        when multipart
          (print_color Colors.CYAN (u "Content-Type: multipart/form-data")) ;;
        when (truthy payload)
          (dumped <- text_or_raise (json_dumps P payload None true) ;;
           print_color Colors.YELLOW (u "Payload: " ++ dumped)) ;;
        print [])) ;;
  response <- make_request url method headers payload multipart ;;
  finish response raw_output verbose.

End WithPlatform.

End Mealie.

Import Mealie.

(* ================================================================== *)
(** * Shell escapes: what the repair undoes *)
(* ================================================================== *)

Module Repair.

Local Open Scope N_scope.

(** The characters whose escaped form [parse_json_payload] replaces, in the
    order of the replacements. *)
Definition shell_chars : list N :=
  [cp " "; cp "("; cp ")"; cp "&"; cp "["; cp "]"; cp "{"; cp "}"; cp ";";
   cp ">"; cp "<"; cp "|"; cp "$"; cp "`"; cp "'"; dquote].

(** Does the text start with one of the characters [L]? *)
Definition next_in (L : list N) (s : pystr) : bool :=
  match s with
  | d :: _ => mem d L
  | [] => false
  end.

(** Drop every backslash that stands directly before a character of [L]. *)
Fixpoint unescape (L : list N) (s : pystr) : pystr :=
  match s with
  | [] => []
  | c :: t =>
      if (c =? backslash) && next_in L t then unescape L t
      else c :: unescape L t
  end.

(** A shell introducing escapes: a backslash is put before the characters
    of [s] selected by [mask], where they are listed characters. *)
Fixpoint introduce (mask : list bool) (s : pystr) : pystr :=
  match s with
  | [] => []
  | c :: t =>
      if hd false mask && mem c shell_chars
      then backslash :: c :: introduce (tl mask) t
      else c :: introduce (tl mask) t
  end.

(** No backslash of [s] stands directly before a listed character. *)
Fixpoint no_listed_escape (s : pystr) : bool :=
  match s with
  | [] => true
  | c :: t =>
      negb ((c =? backslash) && next_in shell_chars t) && no_listed_escape t
  end.

(** The characters of [L] are pairwise different and none is a backslash. *)
Fixpoint distinct_plain (L : list N) : bool :=
  match L with
  | [] => true
  | x :: L' => negb (x =? backslash) && negb (mem x L') && distinct_plain L'
  end.

End Repair.

Import Repair.

(* ================================================================== *)
(** * Vocabulary of the statements *)
(* ================================================================== *)

Section Vocabulary.

(** [m] leaves the component [f] of the world as it found it. *)
Definition keeps (X A : Type) (f : World -> X) (m : M A) : Prop :=
  forall w, f (snd (m w)) = f w.

(** Printing does not touch the component [f]. *)
Definition print_invariant (X : Type) (f : World -> X) : Prop :=
  forall s w, f (emit s w) = f w.

(** [m] only prints [out] and returns [a]. *)
Definition prints (A : Type) (m : M A) (a : A) (out : pystr) : Prop :=
  forall w, m w = (Return a, emit out w).

(** [m] only prints, and returns. *)
Definition writer (A : Type) (m : M A) : Prop :=
  exists a out, prints m a out.

(** [m] only prints [out] and ends as [o]. *)
Definition ends (A : Type) (m : M A) (o : outcome A) (out : pystr) : Prop :=
  forall w, m w = (o, emit out w).

(** The text one [print_color] call puts on standard output. *)
Definition colored (color message : pystr) : pystr :=
  color ++ message ++ Colors.NC ++ [newline].

(** What [parse_json_payload] prints before it exits on a payload that
    stays invalid after the repair. *)
Definition malformed_report (payload fixed_payload : pystr)
  (e : JSONDecodeError) : pystr :=
  colored Colors.RED (u "Error: Invalid JSON payload - " ++ str_of_error e)
  ++ colored Colors.YELLOW (u "Original payload: " ++ payload)
  ++ colored Colors.YELLOW (u "Attempted fix: " ++ fixed_payload).

(** The banner [format_response] prints for a status code. *)
Definition status_banner (status : Z) : pystr :=
  let code := Str.of_Z status in
  if is_success status then
    colored Colors.GREEN (10003%N :: u " Success (HTTP " ++ code ++ u ")")
  else if ((400 <=? status) && (status <? 500))%Z then
    colored Colors.RED (10007%N :: u " Client Error (HTTP " ++ code ++ u ")")
  else if ((500 <=? status) && (status <? 600))%Z then
    colored Colors.RED (10007%N :: u " Server Error (HTTP " ++ code ++ u ")")
  else
    colored Colors.YELLOW (u "! Unexpected Status (HTTP " ++ code ++ u ")").

(** The warning [format_response] prints for a body that is not JSON. *)
Definition json_warning : pystr :=
  u "Response claims to be JSON but is not valid JSON:".

(** The string is empty or made of whitespace only. *)
Definition blank (s : pystr) : bool := forallb isspace s.

(** The keys of a dict are pairwise different. *)
Definition unique_keys (v : pyvalue) : Prop :=
  match v with
  | PyDict items => NoDup (keys items)
  | _ => True
  end.

(** Between [w] and [w'] nothing was sent, opened or closed. *)
Definition same_io (w w' : World) : Prop :=
  sent w' = sent w /\ opened w' = opened w /\ closed w' = closed w.

(** [m] does nothing but print, exit or raise. *)
Definition quiet (A : Type) (m : M A) : Prop :=
  forall w, same_io w (snd (m w)).

(** The world once [req] has gone out and the handles [hs] are closed. *)
Definition after_request (req : Request) (hs : list handle) (w : World)
  : World :=
  mkWorld (stdout w) (sent w ++ [req]) (opened w) (closed w ++ hs).

Definition request_failed (msg : pystr) : pystr :=
  colored Colors.RED (10007%N :: u " Request failed: " ++ msg).

(** The scan of the flags at the head of [main]: the raw, verbose and
    multipart modes, and the arguments that are left. *)
Definition parse_flags (argv : list pystr)
  : bool * bool * bool * list pystr :=
  let '(raw_output, args) := take_flag (u "-r") false argv in
  let '(raw_output, args) := take_flag (u "--raw") raw_output args in
  let '(verbose, args) := take_flag (u "-v") false args in
  let '(verbose, args) := take_flag (u "--verbose") verbose args in
  let '(multipart, args) := take_flag (u "-m") false args in
  let '(multipart, args) := take_flag (u "--multipart") multipart args in
  (raw_output, verbose, multipart, args).

(** The flags [main] looks for, in the order in which it looks for them. *)
Definition known_flags : list pystr :=
  [u "-r"; u "--raw"; u "-v"; u "--verbose"; u "-m"; u "--multipart"].

(** The test of [main] for showing the usage: no argument is left, or the
    first one asks for help. *)
Definition wants_help (args : list pystr) : bool :=
  match args with
  | [] => true
  | a :: _ => mem_str a [u "-h"; u "--help"]
  end.

(** The arguments [l] and [l'] are the same, or [l'] is [l] with the first
    occurrence of [f] moved to the front. *)
Definition moved_front (f : pystr) (l l' : list pystr) : Prop :=
  l = l' \/
  exists a b, ~ In f a /\ l = a ++ f :: b /\ l' = f :: a ++ b.

Definition not_backslash (c : N) : bool := negb (N.eqb c backslash).

Definition is_slash (c : N) : bool := N.eqb c (cp "/").

(** What [print_verbose_request] shows of a bearer token. *)
Definition masked (token : pystr) : pystr :=
  if (12 <? List.length token)%nat
  then firstn 8 token ++ u "..." ++ last_n 4 token
  else u "***".

End Vocabulary.

Section PlatformVocabulary.

Variable P : Platform.

(** How [make_request] ends once it issues [req] from the world [w], with
    the handles [hs] to close: the response is returned, a
    [RequestException] is reported and the process exits with 1, any other
    exception goes up. *)
Definition answer (req : Request) (hs : list handle) (w : World)
  : outcome Response * World :=
  match requests_request P req with
  | Responded r => (Return r, after_request req hs w)
  | RequestException msg =>
      (Exit 1, emit (request_failed msg) (after_request req hs w))
  | OtherException name => (Raise (OtherError name), after_request req hs w)
  end.

Definition multipart_headers (headers : list (pystr * pystr))
  : list (pystr * pystr) :=
  filter (fun kv => negb (Str.eqb (str_lower P (fst kv)) (u "content-type")))
    headers.

(** The path a file-reference value resolves to. *)
Definition resolved (kv : pystr * pyvalue) : pystr :=
  expanduser P (value_text (snd kv)).

Definition is_file_item (kv : pystr * pyvalue) : bool :=
  is_file_reference P (fst kv) (snd kv).

Definition file_items (items : list (pystr * pyvalue))
  : list (pystr * pyvalue) :=
  filter is_file_item items.

Definition plain_items (items : list (pystr * pyvalue))
  : list (pystr * pyvalue) :=
  filter (fun kv => negb (is_file_item kv)) items.

(** A file-reference candidate whose resolved path is not a regular file. *)
Definition is_missing (kv : pystr * pyvalue) : bool :=
  is_file_item kv && negb (isfile P (resolved kv)).

Definition file_not_found (kv : pystr * pyvalue) : pystr :=
  colored Colors.RED (u "Error: File not found: " ++ resolved kv).

(** The line [prepare_file_upload] prints for a file it opens. *)
Definition adding_file (kv : pystr * pyvalue) : pystr :=
  colored Colors.CYAN
    (u "Adding file upload: " ++ fst kv ++ u " -> " ++ resolved kv).

(** The file-reference test in the words of the specification: the value
    is a string, and the lowercased key is a file-indicating name, or the
    value starts with [~/] or with [/], or its last path segment contains a
    dot. *)
Definition looks_like_file (key : pystr) (value : pyvalue) : Prop :=
  exists s,
    value = PyStr s /\
    (In (str_lower P key) [u "archive"; u "file"; u "upload"; u "attachment"]
     \/ startswith s (u "~/") = true
     \/ startswith s (u "/") = true
     \/ In (cp ".") (last_item (split (cp "/") s))).

(** The content type the renderer looks at. *)
Definition declared_type (r : Response) : pystr :=
  str_lower P (headers_get P (resp_headers r) (u "content-type")).

(** Rendering the response [r] runs into the fault [f]: the mode is not
    raw, the body is not blank, the response declares JSON, and either
    [response.json()] raises [f] or it returns a value on which
    [json.dumps] raises [RecursionError]. *)
Definition rendering_fault (raw_output : bool) (r : Response) (f : fault)
  : Prop :=
  raw_output = false
  /\ blank (text r) = false
  /\ contains (u "application/json") (declared_type r) = true
  /\ (json_loads (response_limits P) (text r) = DecodeFault f
      \/ exists v,
           json_loads (response_limits P) (text r) = Decoded v
           /\ json_dumps P v (Some 2%nat) false = None
           /\ f = RecursionError).

(** [main] once the flags are scanned: the rest of its body, for the modes
    and the arguments that [parse_flags] gives. *)
Definition run (raw_output verbose multipart : bool) (args : list pystr)
  : M unit :=
  (when (wants_help args) (show_usage ;; sys_exit 0) ;;
   when (List.length args <? 1)%nat
     (print_color Colors.RED (u "Error: Missing endpoint argument") ;;
      show_usage ;;
      sys_exit 1) ;;
   let endpoint := nth 0 args [] in
   let json_payload_str := nth 1 args [] in
   let http_method := nth_error args 2 in
   env <- validate_environment P ;;
   let base_url := fst env in
   let token := snd env in
   let url := build_url base_url endpoint in
   payload <- parse_json_payload P json_payload_str ;;
   let method := determine_method P payload http_method in
   let headers :=
     [(u "Authorization", u "Bearer " ++ token);
      (u "Accept", u "application/json")] in
   let headers :=
     if negb multipart
     then dict_set headers (u "Content-Type") (u "application/json")
     else headers in
   (if verbose then print_verbose_request P url method headers payload multipart
    else
      when (negb raw_output)
        (print_color Colors.BLUE
           (u "Making " ++ method ++ u " request to: " ++ url) ;;
         when multipart
           (print_color Colors.CYAN (u "Content-Type: multipart/form-data")) ;;
         when (truthy payload)
           (dumped <- text_or_raise (json_dumps P payload None true) ;;
            print_color Colors.YELLOW (u "Payload: " ++ dumped)) ;;
         print [])) ;;
   response <- make_request P url method headers payload multipart ;;
   finish P response raw_output verbose)%py.

(** The two reports of [validate_environment]. *)
Definition missing_url_report : pystr :=
  colored Colors.RED (u "Error: MEALIE_URL environment variable is not set")
  ++ u "Set it with: export MEALIE_URL='https://your-mealie-instance.com'"
  ++ [newline].

Definition missing_token_report : pystr :=
  colored Colors.RED (u "Error: MEALIE_TOKEN environment variable is not set")
  ++ u "Set it with: export MEALIE_TOKEN='your-api-token'"
  ++ [newline].

End PlatformVocabulary.

(* ================================================================== *)
(** * A sample platform *)
(* ================================================================== *)

Module Sample.

Local Open Scope N_scope.

Definition lower_char (c : N) : N :=
  if (65 <=? c) && (c <=? 90) then c + 32 else c.

Definition upper_char (c : N) : N :=
  if (97 <=? c) && (c <=? 122) then c - 32 else c.

(** The home directory is [/home/cook]. *)
Definition expand (p : pystr) : pystr :=
  if Str.eqb p (u "~") || startswith p (u "~/")
  then u "/home/cook" ++ skipn 1 p
  else p.

Definition environment (name : pystr) : option pystr :=
  if Str.eqb name (u "MEALIE_URL") then Some (u "https://mealie.example/")
  else if Str.eqb name (u "MEALIE_TOKEN") then Some (u "0123456789abcdef")
  else None.

(** An interpreter whose decoder can enter 990 nested arrays and objects
    and whose [int] converts at most 4300 digits. *)
Definition limits : Limits := mkLimits 990 4300.

(** A machine with one regular file, [/home/cook/backup.zip], ASCII case
    mapping and placeholder texts for the formatting functions, in front of
    the network [transport]. *)
Definition platform (transport : Request -> transport_result) : Platform :=
  mkPlatform environment expand
    (fun p => Str.eqb p (u "/home/cook/backup.zip"))
    (fun _ => 2048)
    (map lower_char) (map upper_char)
    (fun _ _ _ => Some (u "<json>"))
    (fun _ => Some (u "<repr>"))
    (fun _ => u "2.00")
    (fun _ => u "1.50")
    (fun _ => None)
    transport limits limits.

(** A server that answers every request with the given status, content
    type and body. *)
Definition server (status : Z) (content_type body : pystr) (req : Request)
  : transport_result :=
  Responded
    (mkResponse status (u "reason") (req_url req)
       [(u "Content-Type", content_type)] body
       (N.of_nat (List.length body)) 1500).

(** A network that is down. *)
Definition unreachable (req : Request) : transport_result :=
  RequestException (u "connection refused").

(** A transport that fails with an exception of another kind. *)
Definition broken (req : Request) : transport_result :=
  OtherException (u "KeyboardInterrupt").

End Sample.

(* ================================================================== *)
(** * Facts about strings *)
(* ================================================================== *)

Section StrFacts.

Local Open Scope N_scope.

Lemma str_eqb_refl (a : pystr) : Str.eqb a a = true.
Proof.
  induction a as [|x a IH]; simpl; [reflexivity|].
  rewrite N.eqb_refl, IH. reflexivity.
Qed.

Lemma str_eqb_eq (a b : pystr) : Str.eqb a b = true <-> a = b.
Proof.
  split.
  - revert b. induction a as [|x a IH]; intros [|y b] H; simpl in H;
      try discriminate; [reflexivity|].
    apply andb_true_iff in H. destruct H as [Hx Hab].
    apply N.eqb_eq in Hx. subst y. f_equal. now apply IH.
  - intros ->. apply str_eqb_refl.
Qed.

Lemma mem_In (c : N) (chars : list N) : mem c chars = true <-> In c chars.
Proof.
  unfold mem. rewrite existsb_exists. split.
  - intros [x [Hin Hx]]. apply N.eqb_eq in Hx. now subst.
  - intros Hin. exists c. split; [assumption | apply N.eqb_refl].
Qed.

Lemma mem_str_In (s : pystr) (l : list pystr) : mem_str s l = true <-> In s l.
Proof.
  unfold mem_str. rewrite existsb_exists. split.
  - intros [x [Hin Hx]]. apply str_eqb_eq in Hx. now subst.
  - intros Hin. exists s. split; [assumption | apply str_eqb_refl].
Qed.

Lemma forallb_lstrip_by (p : N -> bool) (s : pystr) :
  forallb p (lstrip_by p s) = forallb p s.
Proof.
  induction s as [|c s IH]; [reflexivity|].
  cbn [lstrip_by forallb]. destruct (p c) eqn:E; [exact IH|].
  cbn [forallb]. now rewrite E.
Qed.

Lemma lstrip_by_nil (p : N -> bool) (s : pystr) :
  Str.eqb (lstrip_by p s) [] = forallb p s.
Proof.
  induction s as [|c s IH]; [reflexivity|].
  cbn [lstrip_by forallb]. destruct (p c); [exact IH | reflexivity].
Qed.

Lemma forallb_rev (p : N -> bool) (s : pystr) :
  forallb p (rev s) = forallb p s.
Proof.
  induction s as [|c s IH]; [reflexivity|].
  cbn [rev forallb]. rewrite forallb_app, IH. cbn [forallb].
  rewrite andb_true_r. apply andb_comm.
Qed.

Lemma eqb_nil_rev (s : pystr) : Str.eqb (rev s) [] = Str.eqb s [].
Proof.
  destruct s as [|c s]; [reflexivity|].
  cbn [rev]. destruct (rev s); reflexivity.
Qed.

(** The guard of [parse_json_payload] tests exactly blankness. *)
Lemma blank_guard (s : pystr) :
  Str.eqb s [] || Str.eqb (strip s) [] = blank s.
Proof.
  unfold strip, rstrip_by, blank.
  rewrite eqb_nil_rev, lstrip_by_nil, forallb_rev, forallb_lstrip_by.
  destruct s; reflexivity.
Qed.

End StrFacts.

(* ================================================================== *)
(** * The scanner never runs out of fuel *)
(* ================================================================== *)

Create HintDb scan.

Section JsonFacts.

Local Open Scope N_scope.

Lemma lstrip_by_length (p : N -> bool) (s : pystr) :
  (List.length (Str.lstrip_by p s) <= List.length s)%nat.
Proof.
  induction s as [|c s IH]; simpl; [lia|].
  destruct (p c); simpl; lia.
Qed.

Lemma skip_ws_length (s : pystr) :
  (List.length (skip_ws s) <= List.length s)%nat.
Proof. apply lstrip_by_length. Qed.

Lemma span_length (p : N -> bool) (s a b : pystr) :
  span p s = (a, b) -> (List.length b <= List.length s)%nat.
Proof.
  revert a b. induction s as [|c s IH]; simpl; intros a b H.
  - inversion H. simpl. lia.
  - destruct (p c).
    + destruct (span p s) as [a' b'] eqn:E. inversion H. subst.
      specialize (IH _ _ eq_refl). lia.
    + inversion H. simpl. lia.
Qed.

Lemma scanstring_length_aux (n : nat) :
  forall begin acc s k r,
    (List.length s <= n)%nat ->
    scanstring begin acc s = Scanned k r ->
    (List.length r < List.length s)%nat.
Proof.
  induction n as [|n IH]; intros begin acc s k r Hn H.
  - destruct s; simpl in *; [discriminate | lia].
  - destruct s as [|c t]; cbn [scanstring] in H; [discriminate|].
    destruct (c =? dquote).
    { inversion H. subst. simpl. lia. }
    destruct (c =? backslash).
    2:{ destruct (c <=? 31); [discriminate|].
        apply IH in H; simpl in *; lia. }
    destruct t as [|e t1]; [discriminate|].
    destruct (e =? cp "u").
    2:{ destruct (simple_escape e); [|discriminate].
        apply IH in H; simpl in *; lia. }
    destruct t1 as [|h1 [|h2 [|h3 [|h4 t2]]]]; try discriminate.
    destruct t2 as [|x t2']; [discriminate|].
    destruct (hex4 h1 h2 h3 h4) as [c1|]; [|discriminate].
    assert (Hplain : forall a,
      scanstring begin a (x :: t2') = Scanned k r ->
      (List.length r < List.length (c :: e :: h1 :: h2 :: h3 :: h4 :: x :: t2'))%nat).
    { intros a Ha. apply IH in Ha; simpl in *; lia. }
    destruct (is_high_surrogate c1); [|now apply Hplain in H].
    destruct t2' as [|e2 [|g1 [|g2 [|g3 [|g4 t3]]]]];
      try (now apply Hplain in H).
    destruct t3 as [|y t3']; [now apply Hplain in H|].
    destruct ((x =? backslash) && (e2 =? cp "u")); [|now apply Hplain in H].
    destruct (hex4 g1 g2 g3 g4) as [c2|]; [|discriminate].
    destruct (is_low_surrogate c2); [|now apply Hplain in H].
    apply IH in H; simpl in *; lia.
Qed.

Lemma scanstring_length begin acc s k r :
  scanstring begin acc s = Scanned k r ->
  (List.length r < List.length s)%nat.
Proof. apply (@scanstring_length_aux (List.length s)). lia. Qed.

Lemma int_part_length s ids r :
  int_part s = Some (ids, r) -> (List.length r < List.length s)%nat.
Proof.
  destruct s as [|c t]; simpl; [discriminate|].
  destruct ((49 <=? c) && (c <=? 57)).
  - destruct (span is_digit t) as [ds r'] eqn:E. intros H. inversion H. subst.
    apply span_length in E. simpl. lia.
  - destruct (c =? 48); [|discriminate].
    intros H. inversion H. subst. simpl. lia.
Qed.

Lemma frac_part_length s fds r :
  frac_part s = (fds, r) -> (List.length r <= List.length s)%nat.
Proof.
  unfold frac_part.
  destruct s as [|d [|f t]]; intros H; try (inversion H; simpl; lia).
  destruct ((d =? cp ".") && is_digit f).
  - apply span_length in H. simpl in *. lia.
  - inversion H. simpl. lia.
Qed.

Lemma exp_part_length s ex r :
  exp_part s = (ex, r) -> (List.length r <= List.length s)%nat.
Proof.
  unfold exp_part.
  destruct s as [|e [|x t]]; intros H; try (inversion H; simpl; lia).
  destruct ((e =? cp "e") || (e =? cp "E")); [|inversion H; simpl; lia].
  destruct t as [|y t'].
  - destruct (span is_digit [x]) as [ds r'] eqn:E.
    apply span_length in E.
    destruct ds; inversion H; subst; simpl in *; lia.
  - destruct (if x =? cp "-" then (true, y :: t')
              else if x =? cp "+" then (false, y :: t')
              else (false, x :: y :: t')) as [sg t1] eqn:Esg.
    assert (Ht1 : (List.length t1 <= List.length (x :: y :: t'))%nat).
    { destruct (x =? cp "-"); [inversion Esg; simpl; lia|].
      destruct (x =? cp "+"); inversion Esg; simpl; lia. }
    destruct (span is_digit t1) as [ds r'] eqn:E.
    apply span_length in E.
    destruct ds; inversion H; subst; simpl in *; lia.
Qed.

Lemma match_number_length L s v r :
  match_number L s = Scanned v r -> (List.length r < List.length s)%nat.
Proof.
  unfold match_number.
  destruct (match s with
            | [] => (false, s)
            | c :: t => if c =? cp "-" then (true, t) else (false, s)
            end) as [neg s1] eqn:Es.
  assert (Hs1 : (List.length s1 <= List.length s)%nat).
  { destruct s as [|c t]; [inversion Es; simpl; lia|].
    destruct (c =? cp "-"); inversion Es; simpl; lia. }
  destruct (int_part s1) as [[ids r1]|] eqn:Ei; [|discriminate].
  apply int_part_length in Ei.
  destruct (frac_part r1) as [fds r2] eqn:Ef. apply frac_part_length in Ef.
  destruct (exp_part r2) as [ex r3] eqn:Ee. apply exp_part_length in Ee.
  destruct fds; destruct ex;
    try destruct (over_digit_limit L (List.length ids));
    intros H; inversion H; subst; lia.
Qed.

Lemma match_number_fuel L s : match_number L s <> OutOfFuel.
Proof.
  unfold match_number.
  destruct (match s with
            | [] => (false, s)
            | c :: t => if c =? cp "-" then (true, t) else (false, s)
            end) as [neg s1].
  destruct (int_part s1) as [[ids r1]|]; [|discriminate].
  destruct (frac_part r1) as [fds r2].
  destruct (exp_part r2) as [ex r3].
  destruct fds; destruct ex;
    try destruct (over_digit_limit L (List.length ids)); discriminate.
Qed.

Lemma scanstring_fuel begin acc s : scanstring begin acc s <> OutOfFuel.
Proof.
  assert (H : forall n begin acc s, (List.length s <= n)%nat ->
                scanstring begin acc s <> OutOfFuel).
  { clear. induction n as [|n IH]; intros begin acc s Hn.
    - destruct s; simpl in *; [discriminate | lia].
    - destruct s as [|c t]; cbn [scanstring]; [discriminate|].
      destruct (c =? dquote); [discriminate|].
      destruct (c =? backslash).
      2:{ destruct (c <=? 31); [discriminate|]. apply IH. simpl in *; lia. }
      destruct t as [|e t1]; [discriminate|].
      destruct (e =? cp "u").
      2:{ destruct (simple_escape e); [|discriminate].
          apply IH. simpl in *; lia. }
      destruct t1 as [|h1 [|h2 [|h3 [|h4 t2]]]]; try discriminate.
      destruct t2 as [|x t2']; [discriminate|].
      destruct (hex4 h1 h2 h3 h4) as [c1|]; [|discriminate].
      assert (Hplain : forall a, scanstring begin a (x :: t2') <> OutOfFuel).
      { intros a. apply IH. simpl in *; lia. }
      destruct (is_high_surrogate c1); [|apply Hplain].
      destruct t2' as [|e2 [|g1 [|g2 [|g3 [|g4 t3]]]]]; try apply Hplain.
      destruct t3 as [|y t3']; [apply Hplain|].
      destruct ((x =? backslash) && (e2 =? cp "u")); [|apply Hplain].
      destruct (hex4 g1 g2 g3 g4) as [c2|]; [|discriminate].
      destruct (is_low_surrogate c2); [|apply Hplain].
      apply IH. simpl in *; lia. }
  apply (H (List.length s)). lia.
Qed.

Lemma skipn_shorter (n : nat) (c : N) (t : pystr) :
  (List.length (skipn (S n) (c :: t)) < List.length (c :: t))%nat.
Proof. rewrite length_skipn. simpl. lia. Qed.

Definition scan_ok (s : pystr) (r : scan pyvalue) : Prop :=
  r <> OutOfFuel /\
  forall v rest, r = Scanned v rest -> (List.length rest < List.length s)%nat.

Lemma scan_ok_failed s msg k : scan_ok s (Failed msg k).
Proof. split; [discriminate | intros v rest H; discriminate]. Qed.

Lemma scan_ok_stop s k : scan_ok s (Stop k).
Proof. split; [discriminate | intros v rest H; discriminate]. Qed.

Lemma scan_ok_fault s f : scan_ok s (Fault f).
Proof. split; [discriminate | intros v rest H; discriminate]. Qed.

Lemma scan_ok_scanned s v rest :
  (List.length rest < List.length s)%nat -> scan_ok s (Scanned v rest).
Proof.
  intros H. split; [discriminate|].
  intros v' rest' E. inversion E. subst. exact H.
Qed.

Lemma scan_ok_shorter s s' r :
  (List.length s' <= List.length s)%nat -> scan_ok s' r -> scan_ok s r.
Proof.
  intros Hle [Hf Hs]. split; [exact Hf|].
  intros v rest E. apply Hs in E. lia.
Qed.

#[local] Hint Resolve scan_ok_failed scan_ok_stop scan_ok_fault : scan.

(** With fuel above twice the length of the text, [scan_once] and the two
    loops finish, and a scanned value has consumed at least one character. *)
Lemma scan_fuel (L : Limits) (fuel : nat) :
  (forall depth s, (2 * List.length s < fuel)%nat ->
     scan_ok s (scan_once L fuel depth s)) /\
  (forall depth acc s, (2 * List.length s + 1 < fuel)%nat ->
     scan_ok s (object_loop L fuel depth acc s)) /\
  (forall depth acc s, (2 * List.length s + 1 < fuel)%nat ->
     scan_ok s (array_loop L fuel depth acc s)).
Proof.
  induction fuel as [|fuel [IHv [IHo IHa]]].
  { repeat split; intros; lia. }
  split; [|split].
  - (* scan_once *)
    intros depth s Hs. cbn [scan_once].
    destruct s as [|c t]; [auto with scan|].
    destruct (c =? dquote).
    { destruct (scanstring (List.length (c :: t)) [] t) as [k r|m k|k|f|] eqn:E;
        cbn [map_scan]; auto with scan.
      - apply scan_ok_scanned. apply scanstring_length in E. simpl. lia.
      - exfalso. revert E. apply scanstring_fuel. }
    pose proof (skip_ws_length t) as Hws.
    destruct (c =? cp "{").
    { destruct depth as [|depth]; [auto with scan|].
      destruct (skip_ws t) as [|c1 r] eqn:Et.
      - apply scan_ok_shorter with (s' := []); [simpl; lia|].
        apply IHo. simpl in *. lia.
      - destruct (c1 =? cp "}").
        + apply scan_ok_scanned. simpl in *. lia.
        + apply scan_ok_shorter with (s' := c1 :: r); [simpl in *; lia|].
          apply IHo. simpl in *. lia. }
    destruct (c =? cp "[").
    { destruct depth as [|depth]; [auto with scan|].
      destruct (skip_ws t) as [|c1 r] eqn:Et.
      - apply scan_ok_shorter with (s' := []); [simpl; lia|].
        apply IHa. simpl in *. lia.
      - destruct (c1 =? cp "]").
        + apply scan_ok_scanned. simpl in *. lia.
        + apply scan_ok_shorter with (s' := c1 :: r); [simpl in *; lia|].
          apply IHa. simpl in *. lia. }
    repeat match goal with
           | |- scan_ok _ (if ?b then Scanned _ (skipn _ _) else _) =>
               destruct b; [apply scan_ok_scanned, skipn_shorter|]
           end.
    split; [apply match_number_fuel|].
    intros v rest E. now apply match_number_length in E.
  - (* object_loop *)
    intros depth acc s Hs. cbn [object_loop].
    destruct s as [|c t]; [auto with scan|].
    destruct (c =? dquote); [|auto with scan].
    destruct (scanstring (List.length (c :: t)) [] t) as [key r1|m k|k|f|] eqn:E;
      auto with scan.
    2:{ exfalso. revert E. apply scanstring_fuel. }
    apply scanstring_length in E.
    pose proof (skip_ws_length r1) as H1.
    destruct (skip_ws r1) as [|c2 r3]; [auto with scan|].
    destruct (c2 =? cp ":"); [|auto with scan].
    pose proof (skip_ws_length r3) as H3.
    destruct (IHv depth (skip_ws r3)) as [Hf Hl]; [simpl in *; lia|].
    destruct (scan_once L fuel depth (skip_ws r3)) as [val r5|m k|k|f|] eqn:Ev;
      auto with scan; [|congruence].
    specialize (Hl _ _ eq_refl).
    pose proof (skip_ws_length r5) as H5.
    destruct (skip_ws r5) as [|c3 r7]; [auto with scan|].
    destruct (c3 =? cp "}").
    { apply scan_ok_scanned. simpl in *. lia. }
    destruct (c3 =? cp ","); [|auto with scan].
    pose proof (skip_ws_length r7) as H7.
    apply scan_ok_shorter with (s' := skip_ws r7); [simpl in *; lia|].
    apply IHo. simpl in *. lia.
  - (* array_loop *)
    intros depth acc s Hs. cbn [array_loop].
    destruct (IHv depth s) as [Hf Hl]; [lia|].
    destruct (scan_once L fuel depth s) as [val r1|m k|k|f|] eqn:Ev;
      auto with scan; [|congruence].
    specialize (Hl _ _ eq_refl).
    pose proof (skip_ws_length r1) as H1.
    destruct (skip_ws r1) as [|c r3]; [auto with scan|].
    destruct (c =? cp "]").
    { apply scan_ok_scanned. simpl in *. lia. }
    destruct (c =? cp ","); [|auto with scan].
    pose proof (skip_ws_length r3) as H3.
    apply scan_ok_shorter with (s' := skip_ws r3); [simpl in *; lia|].
    apply IHa. simpl in *. lia.
Qed.

(** [json_loads] gives the scanner enough fuel: its last case never arises. *)
Lemma json_loads_fuel (L : Limits) (s : pystr) :
  scan_once L (enough_fuel s) (max_depth L) (skip_ws s) <> OutOfFuel.
Proof.
  destruct (scan_fuel L (enough_fuel s)) as [H _].
  apply H. unfold enough_fuel. pose proof (skip_ws_length s). lia.
Qed.

End JsonFacts.

(* ================================================================== *)
(** * Facts about the repair *)
(* ================================================================== *)

Section RepairFacts.

Local Open Scope N_scope.

Lemma replace_escape_aux (x : N) (n : nat) :
  x <> backslash ->
  forall s, (List.length s <= n)%nat ->
    replace_from [backslash; x] [x] 0 s = unescape [x] s.
Proof.
  intros Hx. induction n as [|n IH]; intros s Hn.
  - destruct s; [reflexivity | simpl in Hn; lia].
  - destruct s as [|c t]; [reflexivity|].
    cbn [replace_from unescape startswith next_in].
    destruct (c =? backslash) eqn:Ec; cbn [andb].
    + destruct t as [|d t']; cbn [startswith next_in mem existsb].
      * reflexivity.
      * rewrite orb_false_r, andb_true_r.
        destruct (d =? x) eqn:Ed.
        -- apply N.eqb_eq in Ed. subst d.
           cbn [List.length Nat.sub app replace_from unescape next_in].
           assert (Ex : (x =? backslash) = false) by now apply N.eqb_neq.
           rewrite Ex. cbn [andb]. f_equal. apply IH. simpl in Hn. lia.
        -- f_equal. apply IH. simpl in *. lia.
    + f_equal. apply IH. simpl in *. lia.
Qed.

(** One replacement of the repair drops the backslashes before one
    character. *)
Lemma replace_escape (x : N) (s : pystr) :
  x <> backslash -> replace s [backslash; x] [x] = unescape [x] s.
Proof.
  intros Hx. unfold replace. now apply (@replace_escape_aux x (List.length s)).
Qed.

Lemma unescape_nil (s : pystr) : unescape [] s = s.
Proof.
  induction s as [|c t IH]; [reflexivity|].
  cbn [unescape]. replace (next_in [] t) with false by now destruct t.
  rewrite andb_false_r. now rewrite IH.
Qed.

Lemma mem_app (c : N) (L1 L2 : list N) :
  mem c (L1 ++ L2) = mem c L1 || mem c L2.
Proof. unfold mem. apply existsb_app. Qed.

Lemma next_in_app (L1 L2 : list N) (s : pystr) :
  next_in (L1 ++ L2) s = next_in L1 s || next_in L2 s.
Proof. destruct s; [reflexivity | apply mem_app]. Qed.

Section TwoPasses.

Variables (L : list N) (x : N).
Hypothesis L_plain : mem backslash L = false.
Hypothesis x_plain : (x =? backslash) = false.
Hypothesis x_fresh : mem x L = false.

Lemma mem_single (d : N) : mem d [x] = (d =? x).
Proof. unfold mem. simpl. apply orb_false_r. Qed.

(** A pass for the characters [L] does not change whether the text starts
    with [x]. *)
Lemma next_in_unescape (t : pystr) :
  next_in [x] (unescape L t) = next_in [x] t.
Proof.
  destruct t as [|d t']; [reflexivity|].
  cbn [unescape next_in].
  destruct (d =? backslash) eqn:Ed; cbn [andb next_in]; [|reflexivity].
  apply N.eqb_eq in Ed. subst d.
  rewrite !mem_single.
  assert (Hb : (backslash =? x) = false) by now rewrite N.eqb_sym.
  rewrite Hb.
  destruct t' as [|e t'']; cbn [next_in]; [cbn [next_in mem_single]|].
  - cbn [unescape next_in]. rewrite mem_single. exact Hb.
  - destruct (mem e L) eqn:Ee.
    + cbn [unescape].
      assert (He : (e =? backslash) = false).
      { apply N.eqb_neq. intros ->. congruence. }
      rewrite He. cbn [andb next_in]. rewrite mem_single.
      apply N.eqb_neq. intros ->. congruence.
    + cbn [next_in]. rewrite mem_single. exact Hb.
Qed.

(** A pass for [L] followed by the pass for [x] is the pass for both. *)
Lemma unescape_then (s : pystr) :
  unescape [x] (unescape L s) = unescape (L ++ [x]) s.
Proof.
  induction s as [|c t IH]; [reflexivity|].
  cbn [unescape]. rewrite next_in_app.
  destruct (c =? backslash) eqn:Ec; cbn [andb].
  - destruct (next_in L t) eqn:EL; cbn [orb].
    + exact IH.
    + cbn [unescape]. rewrite Ec, next_in_unescape. cbn [andb].
      destruct (next_in [x] t); [exact IH | now rewrite IH].
  - cbn [unescape]. rewrite Ec. cbn [andb]. now rewrite IH.
Qed.

End TwoPasses.

Lemma mem_app_single_false (c x : N) (L : list N) :
  mem c L = false -> (c =? x) = false -> mem c (L ++ [x]) = false.
Proof.
  intros H1 H2. rewrite mem_app, H1. unfold mem. simpl. now rewrite H2.
Qed.

Lemma distinct_plain_no_backslash (L : list N) :
  distinct_plain L = true -> mem backslash L = false.
Proof.
  induction L as [|x L IH]; [reflexivity|].
  cbn [distinct_plain]. intros H.
  apply andb_true_iff in H. destruct H as [H H3].
  apply andb_true_iff in H. destruct H as [H1 H2].
  unfold mem. cbn [existsb]. fold (mem backslash L). rewrite (IH H3).
  rewrite N.eqb_sym. apply negb_true_iff in H1. now rewrite H1.
Qed.

(** Successive passes, one per character, amount to one pass for all the
    characters. *)
Lemma passes_unescape (L done : list N) (s : pystr) :
  distinct_plain L = true ->
  mem backslash done = false ->
  (forall c, In c L -> mem c done = false) ->
  fold_left (fun acc x => unescape [x] acc) L (unescape done s)
  = unescape (done ++ L) s.
Proof.
  revert done. induction L as [|x L IH]; intros done HL Hd Hfresh.
  - now rewrite app_nil_r.
  - cbn [fold_left distinct_plain] in *.
    apply andb_true_iff in HL. destruct HL as [HL H3].
    apply andb_true_iff in HL. destruct HL as [H1 H2].
    apply negb_true_iff in H1, H2.
    rewrite unescape_then; [|exact Hd|exact H1|apply Hfresh; now left].
    rewrite IH; [now rewrite <- app_assoc|exact H3| |].
    + apply mem_app_single_false; [exact Hd | now rewrite N.eqb_sym].
    + intros c Hc. apply mem_app_single_false; [apply Hfresh; now right|].
      apply N.eqb_neq. intros ->.
      apply mem_In in Hc. congruence.
Qed.

Lemma fold_replace_unescape (L : list N) :
  (forall x, In x L -> x <> backslash) ->
  forall s,
    fold_left (fun acc x => replace acc [backslash; x] [x]) L s
    = fold_left (fun acc x => unescape [x] acc) L s.
Proof.
  induction L as [|x L IH]; intros HL s; [reflexivity|].
  cbn [fold_left]. rewrite replace_escape by (apply HL; now left).
  apply IH. intros y Hy. apply HL. now right.
Qed.

(** The sixteen replacements drop exactly the backslashes that stand
    directly before a listed character. *)
Lemma fix_shell_escapes_unescape (s : pystr) :
  fix_shell_escapes s = unescape shell_chars s.
Proof.
  change (fix_shell_escapes s)
    with (fold_left (fun acc x => replace acc [backslash; x] [x]) shell_chars s).
  rewrite fold_replace_unescape.
  - rewrite <- (unescape_nil s) at 1.
    now rewrite passes_unescape.
  - intros x Hx Hb. subst x. apply mem_In in Hx. discriminate Hx.
Qed.

Lemma next_in_introduce (mask : list bool) (t : pystr) :
  next_in shell_chars t = false ->
  next_in shell_chars (introduce mask t) = false.
Proof.
  destruct t as [|d t']; [reflexivity|].
  cbn [introduce next_in]. intros H. rewrite H, andb_false_r. exact H.
Qed.

(** Undoing introduced escapes gives the text back, provided the text had
    no backslash directly before a listed character. *)
Lemma unescape_introduce (s : pystr) :
  no_listed_escape s = true ->
  forall mask, unescape shell_chars (introduce mask s) = s.
Proof.
  induction s as [|c t IH]; intros Hs mask; [reflexivity|].
  cbn [no_listed_escape] in Hs. apply andb_true_iff in Hs.
  destruct Hs as [Hc Ht]. apply negb_true_iff in Hc.
  cbn [introduce].
  destruct (hd false mask && mem c shell_chars) eqn:E.
  - apply andb_true_iff in E. destruct E as [_ Ein].
    cbn [unescape next_in]. rewrite Ein, N.eqb_refl. cbn [andb].
    assert (Ec : (c =? backslash) = false).
    { apply N.eqb_neq. intros ->. discriminate Ein. }
    rewrite Ec. cbn [andb]. now rewrite IH.
  - cbn [unescape].
    destruct (c =? backslash) eqn:Ec; cbn [andb] in *.
    + rewrite next_in_introduce by exact Hc. now rewrite IH.
    + now rewrite IH.
Qed.

End RepairFacts.

(* ================================================================== *)
(** * Reasoning about the monad *)
(* ================================================================== *)

Local Open Scope py_scope.

Lemma emit_nil (w : World) : emit [] w = w.
Proof. destruct w. unfold emit. simpl. now rewrite app_nil_r. Qed.

Lemma emit_emit (a b : pystr) (w : World) :
  emit b (emit a w) = emit (a ++ b) w.
Proof. unfold emit. simpl. now rewrite app_assoc. Qed.

Lemma bind_inv (A B : Type) (m : M A) (k : A -> M B) w o w' :
  bind m k w = (o, w') ->
  (exists a w1, m w = (Return a, w1) /\ k a w1 = (o, w')) \/
  (exists c, m w = (Exit c, w') /\ o = Exit c) \/
  (exists e, m w = (Raise e, w') /\ o = Raise e).
Proof.
  unfold bind. destruct (m w) as [[a|c|e] w1]; intros H.
  - left. now exists a, w1.
  - right. left. inversion H. subst. now exists c.
  - right. right. inversion H. subst. now exists e.
Qed.

Lemma bind_return (A B : Type) (m : M A) (k : A -> M B) w a w1 :
  m w = (Return a, w1) -> bind m k w = k a w1.
Proof. unfold bind. now intros ->. Qed.

Lemma bind_exit (A B : Type) (m : M A) (k : A -> M B) w c w1 :
  m w = (Exit c, w1) -> bind m k w = (Exit c, w1).
Proof. unfold bind. now intros ->. Qed.

Lemma bind_raise (A B : Type) (m : M A) (k : A -> M B) w e w1 :
  m w = (Raise e, w1) -> bind m k w = (Raise e, w1).
Proof. unfold bind. now intros ->. Qed.

Arguments bind_return {A B m} k {w a w1} _.
Arguments bind_exit {A B m} k {w c w1} _.
Arguments bind_raise {A B m} k {w e w1} _.

Section Keeps.

Context {X : Type} (f : World -> X).
Hypothesis f_print : print_invariant f.

Lemma keeps_ret (A : Type) (a : A) : keeps f (ret a).
Proof. intros w. reflexivity. Qed.

Lemma keeps_exit (A : Type) (c : Z) : keeps f (@sys_exit A c).
Proof. intros w. reflexivity. Qed.

Lemma keeps_raise (A : Type) (e : exn) : keeps f (@raise A e).
Proof. intros w. reflexivity. Qed.

Lemma keeps_bind (A B : Type) (m : M A) (k : A -> M B) :
  keeps f m -> (forall a, keeps f (k a)) -> keeps f (bind m k).
Proof.
  intros Hm Hk w. unfold bind. specialize (Hm w).
  destruct (m w) as [[a|c|e] w1]; simpl in *; try exact Hm.
  now rewrite Hk.
Qed.

Lemma keeps_write (s : pystr) : keeps f (write s).
Proof. intros w. apply f_print. Qed.

Lemma keeps_print (s : pystr) : keeps f (print s).
Proof. apply keeps_write. Qed.

Lemma keeps_print_color (c s : pystr) : keeps f (print_color c s).
Proof. apply keeps_print. Qed.

Lemma keeps_when (b : bool) (m : M unit) : keeps f m -> keeps f (when b m).
Proof. intros H. destruct b; [exact H | apply keeps_ret]. Qed.

Lemma keeps_text_or_raise (t : option pystr) : keeps f (text_or_raise t).
Proof. destruct t; intros w; reflexivity. Qed.

Lemma keeps_for_each (A : Type) (l : list A) (g : A -> M unit) :
  (forall x, keeps f (g x)) -> keeps f (for_each l g).
Proof.
  intros Hg. induction l as [|x l IH]; cbn [for_each].
  - apply keeps_ret.
  - apply keeps_bind; [apply Hg | intros _; exact IH].
Qed.

End Keeps.

Lemma print_invariant_sent : print_invariant sent.
Proof. intros s w. reflexivity. Qed.

Lemma print_invariant_opened : print_invariant opened.
Proof. intros s w. reflexivity. Qed.

Lemma print_invariant_closed : print_invariant closed.
Proof. intros s w. reflexivity. Qed.

Lemma prints_ret (A : Type) (a : A) : prints (ret a) a [].
Proof. intros w. unfold ret. now rewrite emit_nil. Qed.

Lemma prints_write (s : pystr) : prints (write s) tt s.
Proof. intros w. reflexivity. Qed.

Lemma prints_print (s : pystr) : prints (print s) tt (s ++ [newline]).
Proof. intros w. reflexivity. Qed.

Lemma prints_print_color (c s : pystr) :
  prints (print_color c s) tt (colored c s).
Proof.
  intros w. unfold print_color, print, write, colored.
  now rewrite <- !app_assoc.
Qed.

Lemma prints_bind (A B : Type) (m : M A) (k : A -> M B) a b o1 o2 :
  prints m a o1 -> prints (k a) b o2 -> prints (bind m k) b (o1 ++ o2).
Proof.
  intros Hm Hk w. unfold bind. rewrite Hm, Hk. now rewrite emit_emit.
Qed.

Lemma writer_ret (A : Type) (a : A) : writer (ret a).
Proof. exists a, []. apply prints_ret. Qed.

Lemma writer_write (s : pystr) : writer (write s).
Proof. exists tt, s. apply prints_write. Qed.

Lemma writer_print (s : pystr) : writer (print s).
Proof. exists tt, (s ++ [newline]). apply prints_print. Qed.

Lemma writer_print_color (c s : pystr) : writer (print_color c s).
Proof. apply writer_print. Qed.

Lemma writer_bind (A B : Type) (m : M A) (k : A -> M B) :
  writer m -> (forall a, writer (k a)) -> writer (bind m k).
Proof.
  intros [a [o1 Hm]] Hk. destruct (Hk a) as [b [o2 Hka]].
  exists b, (o1 ++ o2). now apply prints_bind with (a := a).
Qed.

Lemma writer_when (b : bool) (m : M unit) : writer m -> writer (when b m).
Proof. intros H. destruct b; [exact H | apply writer_ret]. Qed.

Lemma writer_for_each (A : Type) (l : list A) (g : A -> M unit) :
  (forall x, writer (g x)) -> writer (for_each l g).
Proof.
  intros Hg. induction l as [|x l IH]; cbn [for_each].
  - apply writer_ret.
  - apply writer_bind; [apply Hg | intros _; exact IH].
Qed.

Lemma writer_keeps (X A : Type) (f : World -> X) (m : M A) :
  print_invariant f -> writer m -> keeps f m.
Proof.
  intros Hf [a [out Hm]] w. rewrite Hm. apply Hf.
Qed.

Create HintDb keeps.
#[local] Hint Resolve print_invariant_sent print_invariant_opened
  print_invariant_closed : keeps.

(** Decompose a goal [keeps f m] or [writer m] along the structure of [m]. *)
Ltac keeps_step :=
  match goal with
  | |- keeps _ (bind _ _) => apply keeps_bind; [|intros ?]
  | |- keeps _ (ret _) => apply keeps_ret
  | |- keeps _ (sys_exit _) => apply keeps_exit
  | |- keeps _ (raise _) => apply keeps_raise
  | |- keeps _ (text_or_raise _) => apply keeps_text_or_raise
  | |- keeps _ (print_color _ _) => apply keeps_print_color; auto with keeps
  | |- keeps _ (print _) => apply keeps_print; auto with keeps
  | |- keeps _ (write _) => apply keeps_write; auto with keeps
  | |- keeps _ (when _ _) => apply keeps_when
  | |- keeps _ (for_each _ _) => apply keeps_for_each; intros ?
  | |- keeps _ (if ?b then _ else _) => destruct b
  | |- keeps _ (let (_, _) := ?p in _) => destruct p
  | |- keeps _ (match ?x with _ => _ end) => destruct x
  end.

Ltac writer_step :=
  match goal with
  | |- writer (bind _ _) => apply writer_bind; [|intros ?]
  | |- writer (ret _) => apply writer_ret
  | |- writer (print_color _ _) => apply writer_print_color
  | |- writer (print _) => apply writer_print
  | |- writer (write _) => apply writer_write
  | |- writer (when _ _) => apply writer_when
  | |- writer (for_each _ _) => apply writer_for_each; intros ?
  | |- writer (if ?b then _ else _) => destruct b
  | |- writer (let (_, _) := ?p in _) => destruct p
  | |- writer (match ?x with _ => _ end) => destruct x
  end.

(* ================================================================== *)
(** * Facts about the program's functions *)
(* ================================================================== *)

Section ProgramFacts.

Variable P : Platform.

Local Open Scope py_scope.

Lemma writer_show_usage : writer show_usage.
Proof. unfold show_usage. repeat writer_step. Qed.

Section Frame.

Context {X : Type} (f : World -> X).
Hypothesis f_print : print_invariant f.

Lemma keeps_show_usage : keeps f show_usage.
Proof. apply writer_keeps; [exact f_print | apply writer_show_usage]. Qed.

Lemma keeps_validate_environment : keeps f (validate_environment P).
Proof. unfold validate_environment. repeat keeps_step. Qed.

Lemma keeps_parse_json_payload (payload : pystr) :
  keeps f (parse_json_payload P payload).
Proof. unfold parse_json_payload. repeat keeps_step. Qed.

Lemma keeps_print_verbose_request url method headers payload multipart :
  keeps f (print_verbose_request P url method headers payload multipart).
Proof.
  unfold print_verbose_request, print_header, print_field.
  repeat keeps_step.
Qed.

End Frame.

Lemma writer_print_verbose_response (response : Response) :
  writer (print_verbose_response P response).
Proof. unfold print_verbose_response. repeat writer_step. Qed.

Lemma prints_print_status (status : Z) :
  prints (print_status status) tt (status_banner status).
Proof.
  unfold print_status, status_banner.
  destruct (is_success status); [apply prints_print_color|].
  destruct ((400 <=? status) && (status <? 500))%Z;
    [apply prints_print_color|].
  destruct ((500 <=? status) && (status <? 600))%Z; apply prints_print_color.
Qed.

(** A computation that prints and then may end with a fault of the decoder
    under the condition [C]. *)
Lemma may_fault_bind (A : Type) (m : M A) (k : A -> M unit)
  (C : fault -> Prop) :
  writer m ->
  (forall a, exists out,
     ends (k a) (Return tt) out
     \/ exists f, C f /\ ends (k a) (Raise (fault_exn f)) out) ->
  exists out,
    ends (bind m k) (Return tt) out
    \/ exists f, C f /\ ends (bind m k) (Raise (fault_exn f)) out.
Proof.
  intros [a [o1 Hm]] Hk.
  destruct (Hk a) as [o2 [H | [f [Hc H]]]]; exists (o1 ++ o2).
  - left. intros w. unfold bind. rewrite Hm, H. now rewrite emit_emit.
  - right. exists f. split; [exact Hc|].
    intros w. unfold bind. rewrite Hm, H. now rewrite emit_emit.
Qed.

Lemma may_fault_writer (m : M unit) (C : fault -> Prop) :
  writer m ->
  exists out,
    ends m (Return tt) out
    \/ exists f, C f /\ ends m (Raise (fault_exn f)) out.
Proof. intros [[] [out H]]. exists out. now left. Qed.

(** Rendering a response only prints; it returns, unless it runs into a
    limit of the interpreter: then the exception goes up. *)
Lemma format_response_ends (response : Response) (raw_output verbose : bool) :
  exists out,
    ends (format_response P response raw_output verbose) (Return tt) out
    \/ exists f,
         rendering_fault P raw_output response f
         /\ ends (format_response P response raw_output verbose)
              (Raise (fault_exn f)) out.
Proof.
  unfold format_response, rendering_fault. cbv zeta.
  destruct raw_output.
  { apply may_fault_writer.
    apply writer_bind;
      [apply writer_when, writer_print_verbose_response
      | intros _; apply writer_write]. }
  apply may_fault_bind;
    [apply writer_when, writer_print_verbose_response|]. intros _.
  apply may_fault_bind; [eexists _, _; apply prints_print_status|]. intros _.
  destruct (Str.eqb (strip (text response)) []) eqn:Estrip.
  { apply may_fault_writer. repeat writer_step. }
  assert (Hblank : blank (text response) = false).
  { rewrite <- blank_guard, Estrip.
    destruct (text response); [discriminate Estrip | reflexivity]. }
  apply may_fault_bind; [apply writer_print|]. intros _.
  fold (declared_type P response).
  destruct (contains (u "application/json") (declared_type P response))
    eqn:Etype.
  2:{ apply may_fault_writer. repeat writer_step. }
  destruct (json_loads (response_limits P) (text response)) as [v|e|f] eqn:Ej.
  - destruct (json_dumps P v (Some 2%nat) false) as [dumped|] eqn:Ed;
      cbn [text_or_raise].
    + apply may_fault_writer.
      apply writer_bind; [apply writer_ret | intros ?; apply writer_print].
    + exists []. right. exists RecursionError. split.
      * repeat split; try assumption. right. now exists v.
      * intros w. unfold bind, raise. now rewrite emit_nil.
  - apply may_fault_writer. repeat writer_step.
  - exists []. right. exists f. split.
    + repeat split; try assumption. now left.
    + intros w. unfold raise. now rewrite emit_nil.
Qed.

(** The end of [main]: the response is rendered and the process exits with
    the code of the status, unless the rendering ends with a fault. *)
Lemma finish_ends (response : Response) (raw_output verbose : bool) :
  exists out,
    ends (finish P response raw_output verbose)
      (Exit (exit_code_for (status_code response))) out
    \/ exists f,
         rendering_fault P raw_output response f
         /\ ends (finish P response raw_output verbose)
              (Raise (fault_exn f)) out.
Proof.
  destruct (format_response_ends response raw_output verbose)
    as [out [H | [f [Hc H]]]]; exists out.
  - left. intros w. unfold finish, bind. now rewrite H.
  - right. exists f. split; [exact Hc|].
    intros w. unfold finish, bind. now rewrite H.
Qed.

(** When the rendering runs into a limit, it stops after the line
    [Response:] and the exception goes up. *)
Lemma finish_fault (response : Response) (raw_output verbose : bool)
  (f : fault) :
  rendering_fault P raw_output response f ->
  exists out,
    ends (finish P response raw_output verbose) (Raise (fault_exn f)) out.
Proof.
  intros [-> [Hblank [Htype Hj]]].
  destruct (writer_print_verbose_response response) as [[] [dump Hdump]].
  assert (Hverbose : prints (when verbose (print_verbose_response P response))
                       tt (if verbose then dump else [])).
  { destruct verbose; [exact Hdump | apply prints_ret]. }
  assert (Hstrip : Str.eqb (strip (text response)) [] = false).
  { rewrite <- blank_guard in Hblank. now apply orb_false_iff in Hblank. }
  eexists. intros w. unfold finish, format_response.
  unfold bind at 1. unfold bind at 1. rewrite (Hverbose w).
  rewrite (bind_return _ (prints_print_status _ _)).
  rewrite Hstrip.
  rewrite (bind_return _ (prints_print _ _)).
  unfold declared_type in Htype. rewrite Htype.
  destruct Hj as [Hj | [v [Hj [Hd ->]]]]; rewrite Hj.
  - unfold raise. rewrite !emit_emit. reflexivity.
  - rewrite Hd. cbn [text_or_raise]. unfold bind, raise.
    rewrite !emit_emit. reflexivity.
Qed.

(** In raw mode the body is not decoded. *)
Lemma finish_exits_raw (response : Response) (verbose : bool) :
  exists out,
    ends (finish P response true verbose)
      (Exit (exit_code_for (status_code response))) out.
Proof.
  destruct (finish_ends response true verbose)
    as [out [H | [f [[Habs _] _]]]]; [now exists out | discriminate Habs].
Qed.

End ProgramFacts.

(* ================================================================== *)
(** * Sending the request *)
(* ================================================================== *)

Section RequestFacts.

Variable P : Platform.

Local Open Scope py_scope.

Lemma after_request_nil (req : Request) (w : World) :
  after_request req [] w
  = mkWorld (stdout w) (sent w ++ [req]) (opened w) (closed w).
Proof. unfold after_request. now rewrite app_nil_r. Qed.

Lemma for_each_close (hs : list handle) (w : World) :
  for_each hs close w
  = (Return tt, mkWorld (stdout w) (sent w) (opened w) (closed w ++ hs)).
Proof.
  revert w. induction hs as [|h hs IH]; intros w; cbn [for_each].
  - unfold ret. rewrite app_nil_r. now destruct w.
  - unfold bind, close. rewrite IH. cbn [stdout sent opened closed].
    now rewrite <- app_assoc.
Qed.

Lemma sent_answer_snd (req : Request) (hs : list handle) (w : World) :
  sent (snd (answer P req hs w)) = sent w ++ [req].
Proof. unfold answer. now destruct (requests_request P req). Qed.

(** Without a body, or with a JSON body, [make_request] issues the request
    at once. *)
Lemma make_request_direct url method headers payload multipart w :
  let with_body := mem_str method body_methods && negb (is_none payload) in
  with_body && multipart = false ->
  make_request P url method headers payload multipart w
  = answer P
      (mkRequest method url headers
         (if with_body then JsonBody payload else NoBody) 30)
      [] w.
Proof.
  intros with_body H. unfold make_request, try_except_request, answer.
  fold with_body. rewrite after_request_nil.
  destruct with_body; cbn [andb] in H.
  - rewrite H. unfold request.
    destruct (requests_request P _); try reflexivity.
    rewrite (bind_return _ (prints_print_color _ _ _)). reflexivity.
  - unfold request.
    destruct (requests_request P _); try reflexivity.
    rewrite (bind_return _ (prints_print_color _ _ _)). reflexivity.
Qed.

(** In multipart mode the request goes out once the payload is classified,
    and the files are closed whatever the transport does. *)
Lemma make_request_multipart url method headers payload w files data w1 :
  mem_str method body_methods && negb (is_none payload) = true ->
  prepare_file_upload P payload w = (Return (files, data), w1) ->
  make_request P url method headers payload true w
  = answer P
      (mkRequest method url (multipart_headers P headers)
         (MultipartBody files data) 30)
      (values files) w1.
Proof.
  intros Hc Hp. unfold make_request, try_except_request, answer.
  rewrite Hc. rewrite (bind_return _ Hp). cbn [fst snd].
  unfold try_finally, request. fold (multipart_headers P headers).
  destruct (requests_request P _); rewrite for_each_close;
    cbn [stdout sent opened closed]; try reflexivity.
  rewrite (bind_return _ (prints_print_color _ _ _)). reflexivity.
Qed.

(** When the classification does not return, neither does [make_request],
    and nothing is sent. *)
Lemma make_request_unclassified url method headers payload w o w1 :
  mem_str method body_methods && negb (is_none payload) = true ->
  prepare_file_upload P payload w = (o, w1) ->
  (forall msg, o <> Raise (RequestsError msg)) ->
  (forall x, o <> Return x) ->
  exists o', make_request P url method headers payload true w = (o', w1)
             /\ exit_status o' = exit_status o /\ forall r, o' <> Return r.
Proof.
  intros Hc Hp Hraise Hret. unfold make_request, try_except_request.
  rewrite Hc. unfold bind at 1. rewrite Hp.
  destruct o as [x|c|e].
  - now elim (Hret x).
  - exists (Exit c). repeat split; discriminate.
  - destruct e as [|msg|name].
    + exists (Raise AttributeError). repeat split; discriminate.
    + now elim (Hraise msg).
    + exists (Raise (OtherError name)). repeat split; discriminate.
Qed.

End RequestFacts.

(* ================================================================== *)
(** * Classifying the fields of a multipart payload *)
(* ================================================================== *)

Section ClassificationFacts.

Variable P : Platform.

Local Open Scope py_scope.

Lemma dict_set_fresh (V : Type) (d : list (pystr * V)) (k : pystr) (v : V) :
  ~ In k (keys d) -> dict_set d k v = d ++ [(k, v)].
Proof.
  induction d as [|[k' v'] d IH]; intros Hk; [reflexivity|].
  cbn [dict_set]. destruct (Str.eqb k' k) eqn:E.
  - apply str_eqb_eq in E. subst. elim Hk. now left.
  - cbn [app]. rewrite IH; [reflexivity|]. intros Hin. apply Hk. now right.
Qed.

Lemma keys_app (V : Type) (a b : list (pystr * V)) :
  keys (a ++ b) = keys a ++ keys b.
Proof. apply map_app. Qed.

Lemma items_cons_file key value rest :
  is_file_reference P key value = true ->
  file_items P ((key, value) :: rest) = (key, value) :: file_items P rest
  /\ plain_items P ((key, value) :: rest) = plain_items P rest.
Proof.
  intros H. unfold file_items, plain_items, is_file_item. cbn [filter fst snd].
  now rewrite H.
Qed.

Lemma items_cons_plain key value rest :
  is_file_reference P key value = false ->
  file_items P ((key, value) :: rest) = file_items P rest
  /\ plain_items P ((key, value) :: rest) = (key, value) :: plain_items P rest.
Proof.
  intros H. unfold file_items, plain_items, is_file_item. cbn [filter fst snd].
  now rewrite H.
Qed.

(** A classification that returns has put the file candidates, in order,
    into [files] with a fresh handle each, and the other items into
    [data]; the handles are the files it opened. *)
Lemma prepare_items_return (items : list (pystr * pyvalue)) :
  forall files data w files' data' w',
    NoDup (keys items) ->
    (forall k, In k (keys items) -> ~ In k (keys files) /\ ~ In k (keys data)) ->
    prepare_items P items files data w = (Return (files', data'), w') ->
    exists hs,
      files' = files ++ combine (keys (file_items P items)) hs /\
      map path hs = map (resolved P) (file_items P items) /\
      data' = data ++ plain_items P items /\
      opened w' = opened w ++ hs /\
      closed w' = closed w /\
      sent w' = sent w /\
      forallb (fun kv => isfile P (resolved P kv)) (file_items P items) = true.
Proof.
  induction items as [|[key value] rest IH];
    intros files data w files' data' w' Hnd Hfresh H.
  - cbn in H. inversion H. subst. exists [].
    cbn. now rewrite !app_nil_r.
  - cbn [prepare_items] in H.
    cbn [keys map fst] in Hnd, Hfresh. apply NoDup_cons_iff in Hnd.
    destruct Hnd as [Hkey Hnd].
    destruct (Hfresh key (or_introl eq_refl)) as [Hkf Hkd].
    destruct (is_file_reference P key value) eqn:Eref.
    + destruct (@items_cons_file key value rest Eref) as [-> ->].
      destruct (isfile P (expanduser P (value_text value))) eqn:Efile.
      * rewrite (bind_return _ (prints_print_color _ _ _)) in H.
        unfold bind at 1, open_rb in H.
        rewrite dict_set_fresh in H by exact Hkf.
        apply IH in H; [|exact Hnd|].
        -- destruct H as [hs [Hf [Hp [Hd [Ho [Hc [Hs Hall]]]]]]].
           cbn [stdout sent opened closed emit] in *.
           eexists (_ :: hs). cbn [combine keys map fst path forallb].
           rewrite Hf, Ho, <- !app_assoc. cbn [app].
           unfold resolved at 1 3. cbn [snd]. rewrite Efile.
           repeat split; try assumption; try reflexivity.
           now rewrite Hp.
        -- intros k Hk. destruct (Hfresh k (or_intror Hk)) as [Hf Hd].
           split; [|exact Hd].
           rewrite keys_app, in_app_iff. cbn.
           intros [Hin | [Heq | []]]; [now apply Hf|].
           subst k. now apply Hkey.
      * rewrite (bind_return _ (prints_print_color _ _ _)) in H.
        discriminate H.
    + destruct (@items_cons_plain key value rest Eref) as [-> ->].
      rewrite dict_set_fresh in H by exact Hkd.
      apply IH in H; [|exact Hnd|].
      * destruct H as [hs [Hf [Hp [Hd [Ho [Hc [Hs Hall]]]]]]].
        exists hs. rewrite Hd, <- app_assoc. cbn [app].
        repeat split; assumption.
      * intros k Hk. destruct (Hfresh k (or_intror Hk)) as [Hf Hd].
        split; [exact Hf|].
        rewrite keys_app, in_app_iff. cbn.
        intros [Hin | [Heq | []]]; [now apply Hd|].
        subst k. now apply Hkey.
Qed.

(** The first missing candidate of a payload that has one. *)
Lemma first_missing_split (items : list (pystr * pyvalue)) :
  existsb (is_missing P) items = true ->
  exists before kv after,
    items = before ++ kv :: after
    /\ existsb (is_missing P) before = false
    /\ is_missing P kv = true.
Proof.
  induction items as [|kv0 rest IH]; [discriminate|].
  cbn [existsb]. destruct (is_missing P kv0) eqn:E0.
  - intros _. now exists [], kv0, rest.
  - cbn [orb]. intros H.
    destruct (IH H) as [before [kv [after [-> [Hb Hkv]]]]].
    exists (kv0 :: before), kv, after. repeat split; [|exact Hkv].
    cbn [existsb]. now rewrite E0, Hb.
Qed.

(** The classification stops at the first missing candidate: it has
    announced the files before it, reports its path and exits with 1. *)
Lemma prepare_items_first_missing (before : list (pystr * pyvalue)) :
  forall files data w kv after,
    existsb (is_missing P) before = false ->
    is_missing P kv = true ->
    exists w',
      prepare_items P (before ++ kv :: after) files data w = (Exit 1, w')
      /\ stdout w'
         = stdout w ++ List.concat (map (adding_file P) (file_items P before))
           ++ file_not_found P kv
      /\ sent w' = sent w.
Proof.
  induction before as [|[key value] rest IH];
    intros files data w kv after Hbefore Hkv.
  - destruct kv as [key value]. cbn [app prepare_items].
    unfold is_missing, is_file_item, resolved in Hkv. cbn [fst snd] in Hkv.
    apply andb_true_iff in Hkv. destruct Hkv as [Href Hfile].
    apply negb_true_iff in Hfile. rewrite Href, Hfile.
    rewrite (bind_return _ (prints_print_color _ _ _)).
    eexists. split; [reflexivity|]. split; reflexivity.
  - cbn [existsb] in Hbefore. apply orb_false_iff in Hbefore.
    destruct Hbefore as [Hhead Hrest].
    unfold is_missing, is_file_item, resolved in Hhead.
    cbn [fst snd] in Hhead.
    cbn [app prepare_items].
    destruct (is_file_reference P key value) eqn:Href; cbn [andb] in Hhead.
    + apply negb_false_iff in Hhead. rewrite Hhead.
      rewrite (bind_return _ (prints_print_color _ _ _)).
      unfold bind at 1, open_rb.
      match goal with
      | |- context [prepare_items P (rest ++ kv :: after) ?fs ?ds ?w0] =>
          destruct (IH fs ds w0 kv after Hrest Hkv) as [w' [Hrun [Ho Hs]]]
      end.
      cbn [stdout sent opened closed emit] in Ho, Hs.
      exists w'. split; [exact Hrun|]. split; [|exact Hs].
      rewrite (proj1 (items_cons_file key value rest Href)).
      cbn [map List.concat]. rewrite Ho. unfold adding_file at 1, resolved at 1.
      cbn [fst snd]. now rewrite <- !app_assoc.
    + destruct (IH files (dict_set data key value) w kv after Hrest Hkv)
        as [w' [Hrun [Ho Hs]]].
      exists w'. split; [exact Hrun|]. split; [|exact Hs].
      now rewrite (proj1 (items_cons_plain key value rest Href)).
Qed.

(** The classification never raises, and exits with 1 only. *)
Lemma prepare_items_outcome (items : list (pystr * pyvalue)) :
  forall files data w,
    (exists r, fst (prepare_items P items files data w) = Return r) \/
    fst (prepare_items P items files data w) = Exit 1.
Proof.
  induction items as [|[key value] rest IH]; intros files data w.
  - left. now exists (files, data).
  - cbn [prepare_items].
    destruct (is_file_reference P key value); [|apply IH].
    destruct (isfile P (expanduser P (value_text value))).
    + rewrite (bind_return _ (prints_print_color _ _ _)).
      unfold bind at 1, open_rb. apply IH.
    + rewrite (bind_return _ (prints_print_color _ _ _)). now right.
Qed.

Lemma keeps_sent_prepare_items (items : list (pystr * pyvalue)) :
  forall files data, keeps sent (prepare_items P items files data).
Proof.
  induction items as [|[key value] rest IH]; intros files data;
    cbn [prepare_items].
  - apply keeps_ret.
  - destruct (is_file_reference P key value); [|apply IH].
    destruct (isfile P (expanduser P (value_text value))).
    + apply keeps_bind; [apply keeps_print_color, print_invariant_sent|].
      intros _. apply keeps_bind; [intros w; reflexivity|].
      intros h. apply IH.
    + repeat keeps_step.
Qed.

Lemma keeps_sent_prepare_file_upload (payload : pyvalue) :
  keeps sent (prepare_file_upload P payload).
Proof.
  destruct payload; cbn [prepare_file_upload];
    try apply keeps_raise. apply keeps_sent_prepare_items.
Qed.

Lemma contains_single (c : N) (s : pystr) :
  contains [c] s = true <-> In c s.
Proof.
  induction s as [|d s IH]; cbn [contains startswith In].
  - split; [discriminate | tauto].
  - rewrite andb_true_r, orb_true_iff, IH, N.eqb_eq.
    split; intros [H|H]; auto.
Qed.

(** The test of the code is the test of the specification. *)
Lemma is_file_reference_spec (key : pystr) (value : pyvalue) :
  is_file_reference P key value = true <-> looks_like_file P key value.
Proof.
  unfold looks_like_file. destruct value as [| | | |s| |];
    cbn [is_file_reference];
    try (split; [discriminate | intros [s' [H _]]; discriminate H]).
  rewrite !orb_true_iff, mem_str_In.
  change (u ".") with [cp "."]. rewrite contains_single.
  split.
  - intros H. exists s. split; [reflexivity | tauto].
  - intros [s' [E H]]. inversion E. subst s'. tauto.
Qed.

Lemma keys_combine (V : Type) (ks : list pystr) (vs : list V) :
  List.length ks = List.length vs -> keys (combine ks vs) = ks.
Proof.
  revert vs. induction ks as [|k ks IH]; intros [|v vs] H;
    try discriminate; [reflexivity|].
  cbn. f_equal. apply IH. now inversion H.
Qed.

Lemma nodup_keys_value (V : Type) (d : list (pystr * V)) k v1 v2 :
  NoDup (keys d) -> In (k, v1) d -> In (k, v2) d -> v1 = v2.
Proof.
  induction d as [|[k' v'] d IH]; intros Hnd H1 H2; [contradiction|].
  cbn in Hnd. apply NoDup_cons_iff in Hnd. destruct Hnd as [Hk Hnd].
  destruct H1 as [H1|H1], H2 as [H2|H2].
  - congruence.
  - inversion H1. subst. elim Hk. now apply (in_map fst) in H2.
  - inversion H2. subst. elim Hk. now apply (in_map fst) in H1.
  - now apply IH.
Qed.

Lemma in_keys (V : Type) (d : list (pystr * V)) (k : pystr) :
  In k (keys d) <-> exists v, In (k, v) d.
Proof.
  unfold keys. rewrite in_map_iff. split.
  - intros [[k' v] [E H]]. cbn in E. subst. now exists v.
  - intros [v H]. now exists (k, v).
Qed.

(** What a classification that returns has built, for a dict payload. *)
Lemma prepare_file_upload_return items files data w w' :
  NoDup (keys items) ->
  prepare_file_upload P (PyDict items) w = (Return (files, data), w') ->
  keys files = keys (file_items P items)
  /\ map path (values files) = map (resolved P) (file_items P items)
  /\ data = plain_items P items
  /\ opened w' = opened w ++ values files
  /\ closed w' = closed w
  /\ sent w' = sent w
  /\ forallb (fun kv => isfile P (resolved P kv)) (file_items P items) = true.
Proof.
  intros Hnd H. cbn [prepare_file_upload] in H.
  apply prepare_items_return in H; [|exact Hnd|intros k _; split; intros []].
  destruct H as [hs [Hf [Hp [Hd [Ho [Hc [Hs Hall]]]]]]].
  cbn [app] in Hf, Hd.
  assert (Hlen : List.length (keys (file_items P items)) = List.length hs).
  { unfold keys. rewrite length_map.
    apply (f_equal (@List.length pystr)) in Hp.
    now rewrite !length_map in Hp. }
  assert (Hv : values files = hs).
  { subst files. unfold values.
    clear - Hlen. revert hs Hlen.
    induction (keys (file_items P items)) as [|k ks IH]; intros [|h hs] Hlen;
      try discriminate; [reflexivity|].
    cbn. f_equal. apply IH. now inversion Hlen. }
  rewrite Hv. subst files data.
  rewrite keys_combine by exact Hlen. repeat split; assumption.
Qed.

End ClassificationFacts.

(* ================================================================== *)
(** * Decoded dicts have distinct keys *)
(* ================================================================== *)

Section UniqueKeys.

Local Open Scope N_scope.

Lemma str_eqb_sym (a b : pystr) : Str.eqb a b = Str.eqb b a.
Proof.
  destruct (Str.eqb a b) eqn:E.
  - apply str_eqb_eq in E. subst. symmetry. apply str_eqb_refl.
  - destruct (Str.eqb b a) eqn:E'; [|reflexivity].
    apply str_eqb_eq in E'. subst. now rewrite str_eqb_refl in E.
Qed.

Lemma dict_set_keys (V : Type) (d : list (pystr * V)) (k : pystr) (v : V) :
  keys (dict_set d k v) = if mem_str k (keys d) then keys d else keys d ++ [k].
Proof.
  induction d as [|[k' v'] d IH]; [reflexivity|].
  cbn [dict_set keys map fst mem_str existsb]. rewrite (str_eqb_sym k k').
  destruct (Str.eqb k' k); cbn [orb keys map fst]; [reflexivity|].
  fold (keys d). fold (keys (dict_set d k v)). fold (mem_str k (keys d)).
  rewrite IH. now destruct (mem_str k (keys d)).
Qed.

Lemma dict_set_nodup (V : Type) (d : list (pystr * V)) (k : pystr) (v : V) :
  NoDup (keys d) -> NoDup (keys (dict_set d k v)).
Proof.
  intros H. rewrite dict_set_keys.
  destruct (mem_str k (keys d)) eqn:E; [exact H|].
  apply NoDup_app; [exact H | repeat constructor; intros [] |].
  intros a Ha [Hk|[]]. subst a. apply mem_str_In in Ha. congruence.
Qed.

Lemma match_number_unique_keys L s v r :
  match_number L s = Scanned v r -> unique_keys v.
Proof.
  unfold match_number.
  destruct (match s with
            | [] => (false, s)
            | c :: t => if c =? cp "-" then (true, t) else (false, s)
            end) as [neg s1].
  destruct (int_part s1) as [[ids r1]|]; [|discriminate].
  destruct (frac_part r1) as [fds r2].
  destruct (exp_part r2) as [ex r3].
  destruct fds; destruct ex;
    try destruct (over_digit_limit L (List.length ids));
    intros H; inversion H; exact I.
Qed.

Lemma scan_unique_keys (L : Limits) (fuel : nat) :
  (forall depth s v r,
     scan_once L fuel depth s = Scanned v r -> unique_keys v) /\
  (forall depth acc s v r, NoDup (keys acc) ->
     object_loop L fuel depth acc s = Scanned v r -> unique_keys v) /\
  (forall depth acc s v r,
     array_loop L fuel depth acc s = Scanned v r -> unique_keys v).
Proof.
  induction fuel as [|fuel [IHv [IHo IHa]]].
  { repeat split; intros; discriminate. }
  split; [|split].
  - intros depth s v r. cbn [scan_once].
    destruct s as [|c t]; [discriminate|].
    destruct (c =? dquote).
    { destruct (scanstring (List.length (c :: t)) [] t); cbn [map_scan];
        intros H; inversion H; exact I. }
    destruct (c =? cp "{").
    { destruct depth as [|depth]; [discriminate|].
      destruct (skip_ws t) as [|c1 r1].
      - apply IHo. constructor.
      - destruct (c1 =? cp "}").
        + intros H. inversion H. constructor.
        + apply IHo. constructor. }
    destruct (c =? cp "[").
    { destruct depth as [|depth]; [discriminate|].
      destruct (skip_ws t) as [|c1 r1].
      - apply IHa.
      - destruct (c1 =? cp "]").
        + intros H. inversion H. exact I.
        + apply IHa. }
    repeat match goal with
           | |- (if ?b then Scanned _ _ else _) = _ -> _ =>
               destruct b; [intros H; inversion H; exact I|]
           end.
    apply match_number_unique_keys.
  - intros depth acc s v r Hacc. cbn [object_loop].
    destruct s as [|c t]; [discriminate|].
    destruct (c =? dquote); [|discriminate].
    destruct (scanstring (List.length (c :: t)) [] t) as [key r1|m k|k|f|];
      try discriminate.
    destruct (skip_ws r1) as [|c2 r3]; [discriminate|].
    destruct (c2 =? cp ":"); [|discriminate].
    destruct (scan_once L fuel depth (skip_ws r3)) as [val r5|m k|k|f|];
      try discriminate.
    destruct (skip_ws r5) as [|c3 r7]; [discriminate|].
    destruct (c3 =? cp "}").
    { intros H. inversion H. cbn [unique_keys]. now apply dict_set_nodup. }
    destruct (c3 =? cp ","); [|discriminate].
    apply IHo. now apply dict_set_nodup.
  - intros depth acc s v r. cbn [array_loop].
    destruct (scan_once L fuel depth s) as [val r1|m k|k|f|];
      try discriminate.
    destruct (skip_ws r1) as [|c r3]; [discriminate|].
    destruct (c =? cp "]").
    { intros H. inversion H. exact I. }
    destruct (c =? cp ","); [|discriminate].
    apply IHa.
Qed.

(** A dict that [json.loads] returns has distinct keys. *)
Lemma json_loads_unique_keys (L : Limits) (s : pystr) (v : pyvalue) :
  json_loads L s = Decoded v -> unique_keys v.
Proof.
  unfold json_loads.
  destruct (startswith s [65279]); [discriminate|].
  destruct (scan_once L (enough_fuel s) (max_depth L) (skip_ws s))
    as [v' r|m k|k|f|] eqn:E; try discriminate.
  destruct (skip_ws r); [|discriminate].
  intros H. inversion H. subst v'.
  destruct (scan_unique_keys L (enough_fuel s)) as [Hv _].
  exact (Hv _ _ _ _ E).
Qed.

(** So has the payload that [parse_json_payload] returns. *)
Lemma parse_json_payload_unique_keys (P : Platform) (payload : pystr)
  (w w' : World) (v : pyvalue) :
  parse_json_payload P payload w = (Return v, w') -> unique_keys v.
Proof.
  unfold parse_json_payload.
  destruct (Str.eqb payload [] || Str.eqb (strip payload) []).
  { intros H. inversion H. exact I. }
  destruct (json_loads (loads_limits P) payload) as [v0|e0|f0] eqn:E0.
  { intros H. inversion H. subst. now apply json_loads_unique_keys in E0. }
  2:{ discriminate. }
  rewrite (bind_return _ (prints_print_color _ _ _)).
  destruct (json_loads (loads_limits P) (fix_shell_escapes payload))
    as [v1|e1|f1] eqn:E1.
  { intros H. inversion H. subst. now apply json_loads_unique_keys in E1. }
  2:{ discriminate. }
  rewrite !(bind_return _ (prints_print_color _ _ _)). discriminate.
Qed.

End UniqueKeys.

(* ================================================================== *)
(** * The ways [make_request] ends *)
(* ================================================================== *)

Section RequestOutcomes.

Variable P : Platform.

Local Open Scope py_scope.

(** Either [make_request] ends before anything is sent, and then it does
    not return; or it issues exactly one request, from a world that differs
    from the initial one by what the classification printed and by the
    files it opened, and ends as [answer] says, closing those files. *)
Lemma make_request_cases url method headers payload multipart w o w' :
  unique_keys payload ->
  make_request P url method headers payload multipart w = (o, w') ->
  (sent w' = sent w /\ forall r, o <> Return r)
  \/ (exists req hs w1,
        sent w1 = sent w /\ opened w1 = opened w ++ hs
        /\ closed w1 = closed w
        /\ (multipart = false -> hs = [])
        /\ (o, w') = answer P req hs w1).
Proof.
  intros Hu H.
  destruct (mem_str method body_methods && negb (is_none payload) && multipart)
    eqn:Ec.
  - apply andb_true_iff in Ec. destruct Ec as [Ec ->].
    destruct (prepare_file_upload P payload w) as [o1 w1] eqn:Ep.
    pose proof (keeps_sent_prepare_file_upload P payload w) as Hs.
    rewrite Ep in Hs. cbn [snd] in Hs.
    destruct o1 as [[files data]|c|e].
    + right.
      rewrite (@make_request_multipart P url method headers payload w
                 files data w1 Ec Ep) in H.
      destruct payload as [| | | | | |items];
        try (cbn [prepare_file_upload] in Ep; discriminate Ep).
      destruct (@prepare_file_upload_return P items files data w w1 Hu Ep)
        as [_ [_ [_ [Ho [Hc _]]]]].
      eexists _, (values files), w1.
      repeat split; try assumption; [discriminate | now rewrite H].
    + left.
      destruct (@make_request_unclassified P url method headers payload w
                  (Exit c) w1 Ec Ep) as [o' [Hreq [_ Hnr]]];
        try discriminate.
      rewrite Hreq in H. inversion H. subst. split; [exact Hs | exact Hnr].
    + left.
      assert (He : forall msg, e <> RequestsError msg).
      { destruct payload; cbn [prepare_file_upload] in Ep;
          try (inversion Ep; discriminate).
        pose proof (prepare_items_outcome P items [] [] w) as Ho.
        rewrite Ep in Ho. cbn [fst] in Ho.
        destruct Ho as [[r Ho]|Ho]; discriminate Ho. }
      destruct (@make_request_unclassified P url method headers payload w
                  (Raise e) w1 Ec Ep) as [o' [Hreq [_ Hnr]]];
        try discriminate.
      { intros msg Hm. inversion Hm. now apply (He msg). }
      rewrite Hreq in H. inversion H. subst. split; [exact Hs | exact Hnr].
  - right. rewrite make_request_direct in H by exact Ec.
    eexists _, [], w. rewrite app_nil_r.
    repeat split; now rewrite ?H.
Qed.

Lemma answer_sent req hs w o w' :
  (o, w') = answer P req hs w -> sent w' = sent w ++ [req].
Proof.
  intros H. apply (f_equal snd) in H. cbn [snd] in H. subst w'.
  apply sent_answer_snd.
Qed.

Lemma answer_outcome req hs w o w' :
  (o, w') = answer P req hs w ->
  match requests_request P req with
  | Responded r => o = Return r
  | RequestException _ => o = Exit 1
  | OtherException name => o = Raise (OtherError name)
  end.
Proof.
  unfold answer. destruct (requests_request P req); intros H;
    now inversion H.
Qed.

(** Whatever the transport does, the handles given to [answer] are closed
    and nothing else changes among the open and closed files. *)
Lemma answer_files req hs w o w' :
  (o, w') = answer P req hs w ->
  opened w' = opened w /\ closed w' = closed w ++ hs.
Proof.
  unfold answer. destruct (requests_request P req); intros H;
    inversion H; now split.
Qed.

End RequestOutcomes.

Arguments answer_sent {P req hs w o w'} _.
Arguments answer_outcome {P req hs w o w'} _.
Arguments answer_files {P req hs w o w'} _.

(* ================================================================== *)
(** * Blank payloads *)
(* ================================================================== *)

Section BlankFacts.

Local Open Scope N_scope.

Lemma isspace_range (c : N) : isspace c = true -> c <= 32 \/ 133 <= c.
Proof.
  unfold isspace. intros H.
  repeat (apply orb_true_iff in H; destruct H as [H|H]);
    repeat match goal with
           | E : (_ && _) = true |- _ => apply andb_true_iff in E; destruct E
           | E : (_ <=? _) = true |- _ => apply N.leb_le in E
           | E : (_ =? _) = true |- _ => apply N.eqb_eq in E
           end; lia.
Qed.

Lemma skip_ws_blank (s : pystr) : blank s = true -> blank (skip_ws s) = true.
Proof.
  unfold blank, skip_ws. induction s as [|c s IH]; [reflexivity|].
  cbn [forallb lstrip_by]. intros H. apply andb_true_iff in H.
  destruct H as [Hc Hs]. destruct (is_ws c); [now apply IH|].
  cbn [forallb]. now rewrite Hc, Hs.
Qed.

(** No value starts with a whitespace character. *)
Lemma scan_once_space (L : Limits) (fuel depth : nat) (c : N) (t : pystr) :
  isspace c = true ->
  scan_once L (S fuel) depth (c :: t) = Stop (List.length (c :: t)).
Proof.
  intros Hc. apply isspace_range in Hc.
  assert (E : forall k, 32 < k < 133 -> (c =? k) = false).
  { intros k Hk. apply N.eqb_neq. lia. }
  cbn [scan_once].
  change (u "null") with [110; 117; 108; 108].
  change (u "true") with [116; 114; 117; 101].
  change (u "false") with [102; 97; 108; 115; 101].
  change (u "NaN") with [78; 97; 78].
  change (u "Infinity") with [73; 110; 102; 105; 110; 105; 116; 121].
  change (u "-Infinity") with [45; 73; 110; 102; 105; 110; 105; 116; 121].
  change dquote with 34. change (cp "{") with 123. change (cp "[") with 91.
  cbn [startswith].
  rewrite !E by lia. cbn [andb].
  unfold match_number. change (cp "-") with 45. rewrite E by lia.
  unfold int_part. rewrite E by lia.
  replace ((49 <=? c) && (c <=? 57)) with false; [reflexivity|].
  symmetry. apply andb_false_iff.
  destruct Hc; [left; apply N.leb_gt | right; apply N.leb_gt]; lia.
Qed.

(** A blank string is rejected by the decoder with a [JSONDecodeError],
    whatever the limits of the interpreter are. *)
Lemma blank_decode_error (L : Limits) (s : pystr) :
  blank s = true -> exists e, json_loads L s = DecodeError e.
Proof.
  intros Hb. unfold json_loads.
  destruct (startswith s [65279]); [eexists; reflexivity|].
  apply skip_ws_blank in Hb. unfold enough_fuel.
  destruct (skip_ws s) as [|c t]; [eexists; reflexivity|].
  unfold blank in Hb. cbn [forallb] in Hb. apply andb_true_iff in Hb.
  destruct Hb as [Hc _]. rewrite scan_once_space by exact Hc.
  eexists; reflexivity.
Qed.

(** A blank string is not valid JSON. *)
Lemma blank_not_json (L : Limits) (s : pystr) :
  blank s = true -> is_valid_json L s = false.
Proof.
  intros Hb. unfold is_valid_json.
  destruct (blank_decode_error L s Hb) as [e ->]. reflexivity.
Qed.

End BlankFacts.

(* ================================================================== *)
(** * The course of [main] *)
(* ================================================================== *)

Section MainFacts.

Variable P : Platform.

Local Open Scope py_scope.

Lemma same_io_refl (w : World) : same_io w w.
Proof. repeat split. Qed.

Lemma same_io_trans (w1 w2 w3 : World) :
  same_io w1 w2 -> same_io w2 w3 -> same_io w1 w3.
Proof.
  intros [H1 [H2 H3]] [H4 [H5 H6]]. repeat split; congruence.
Qed.

Lemma same_io_emit (out : pystr) (w : World) : same_io w (emit out w).
Proof. repeat split. Qed.

Lemma quiet_of_keeps (A : Type) (m : M A) :
  keeps sent m -> keeps opened m -> keeps closed m -> quiet m.
Proof. intros H1 H2 H3 w. repeat split; [apply H1 | apply H2 | apply H3]. Qed.

Lemma bind_quiet (A B : Type) (m : M A) (k : A -> M B) w o w' :
  quiet m ->
  bind m k w = (o, w') ->
  (exists a w1, m w = (Return a, w1) /\ same_io w w1 /\ k a w1 = (o, w'))
  \/ (same_io w w' /\ forall b, o <> Return b).
Proof.
  intros Hq H. specialize (Hq w). apply bind_inv in H.
  destruct H as [[a [w1 [Hm Hk]]] | [[c [Hm Ho]] | [e [Hm Ho]]]];
    rewrite Hm in Hq; cbn [snd] in Hq.
  - left. now exists a, w1.
  - right. subst o. split; [exact Hq | discriminate].
  - right. subst o. split; [exact Hq | discriminate].
Qed.

Lemma quiet_validate_environment : quiet (validate_environment P).
Proof.
  apply quiet_of_keeps; apply keeps_validate_environment; auto with keeps.
Qed.

Lemma quiet_parse_json_payload (payload : pystr) :
  quiet (parse_json_payload P payload).
Proof.
  apply quiet_of_keeps; apply keeps_parse_json_payload; auto with keeps.
Qed.

Lemma quiet_help (b : bool) : quiet (when b (show_usage ;; sys_exit 0)).
Proof.
  apply quiet_of_keeps; apply keeps_when, keeps_bind;
    try (intros _; apply keeps_exit);
    apply keeps_show_usage; auto with keeps.
Qed.

Lemma quiet_missing_endpoint (b : bool) :
  quiet (when b
           (print_color Colors.RED (u "Error: Missing endpoint argument") ;;
            show_usage ;; sys_exit 1)).
Proof.
  apply quiet_of_keeps; apply keeps_when;
    (apply keeps_bind; [apply keeps_print_color; auto with keeps|]);
    intros _; apply keeps_bind;
    try (intros _; apply keeps_exit);
    apply keeps_show_usage; auto with keeps.
Qed.

Lemma quiet_request_info url method headers payload multipart
  (raw_output verbose : bool) :
  quiet
    (if verbose then print_verbose_request P url method headers payload multipart
     else
       when (negb raw_output)
         (print_color Colors.BLUE
            (u "Making " ++ method ++ u " request to: " ++ url) ;;
          when multipart
            (print_color Colors.CYAN (u "Content-Type: multipart/form-data")) ;;
          when (truthy payload)
            (dumped <- text_or_raise (json_dumps P payload None true) ;;
             print_color Colors.YELLOW (u "Payload: " ++ dumped)) ;;
          print [])).
Proof.
  destruct verbose.
  - apply quiet_of_keeps; apply keeps_print_verbose_request;
      auto with keeps.
  - apply quiet_of_keeps; repeat keeps_step.
Qed.

(** Either [main] ends without having sent, opened or closed anything, or
    it reaches [make_request] with a payload whose keys are distinct, in a
    world where so far it has only printed, and goes on with [finish]. *)
Lemma main_reaches_request (argv : list pystr) (w : World) o w' :
  main P argv w = (o, w') ->
  same_io w w'
  \/ exists url method headers payload multipart raw_output verbose w0,
       same_io w w0
       /\ unique_keys payload
       /\ bind (make_request P url method headers payload multipart)
            (fun response => finish P response raw_output verbose) w0
          = (o, w').
Proof.
  unfold main.
  destruct (take_flag (u "-r") false argv) as [raw0 args0].
  destruct (take_flag (u "--raw") raw0 args0) as [raw_output args1].
  destruct (take_flag (u "-v") false args1) as [verbose0 args2].
  destruct (take_flag (u "--verbose") verbose0 args2) as [verbose args3].
  destruct (take_flag (u "-m") false args3) as [multipart0 args4].
  destruct (take_flag (u "--multipart") multipart0 args4) as [multipart args].
  intros H.
  apply bind_quiet in H; [|apply quiet_help].
  destruct H as [[[] [w1 [_ [H1 H]]]] | [H _]]; [|now left].
  apply bind_quiet in H; [|apply quiet_missing_endpoint].
  destruct H as [[[] [w2 [_ [H2 H]]]] | [H _]];
    [|left; now apply same_io_trans with w1].
  apply bind_quiet in H; [|apply quiet_validate_environment].
  destruct H as [[env [w3 [_ [H3 H]]]] | [H _]];
    [|left; apply same_io_trans with w2; [|exact H];
      now apply same_io_trans with w1].
  apply bind_quiet in H; [|apply quiet_parse_json_payload].
  destruct H as [[payload [w4 [Hp [H4 H]]]] | [H _]];
    [|left; apply same_io_trans with w3; [|exact H];
      apply same_io_trans with w2; [|exact H3];
      now apply same_io_trans with w1].
  apply parse_json_payload_unique_keys in Hp.
  apply bind_quiet in H; [|apply quiet_request_info].
  assert (H04 : same_io w w4).
  { apply same_io_trans with w3; [|exact H4].
    apply same_io_trans with w2; [|exact H3].
    now apply same_io_trans with w1. }
  destruct H as [[[] [w5 [_ [H5 H]]]] | [H _]];
    [|left; now apply same_io_trans with w4].
  right. do 7 eexists. exists w5.
  split; [now apply same_io_trans with w4|].
  split; [exact Hp | exact H].
Qed.

(** The end of [main] neither sends, opens nor closes; it exits with the
    code of the status, unless the rendering ends with a fault. *)
Lemma finish_same_io (response : Response) (raw_output verbose : bool) w o w' :
  finish P response raw_output verbose w = (o, w') ->
  (o = Exit (exit_code_for (status_code response))
   \/ exists f,
        rendering_fault P raw_output response f /\ o = Raise (fault_exn f))
  /\ same_io w w'.
Proof.
  destruct (finish_ends P response raw_output verbose)
    as [out [Hout | [f [Hc Hout]]]];
    rewrite Hout; intros H; inversion H; (split; [|apply same_io_emit]).
  - now left.
  - right. now exists f.
Qed.

(** Once a request has gone out, the files opened for it are closed,
    however [make_request] ends. *)
Lemma make_request_files url method headers payload multipart w o w' :
  unique_keys payload ->
  make_request P url method headers payload multipart w = (o, w') ->
  sent w' <> sent w ->
  exists req hs,
    sent w' = sent w ++ [req]
    /\ opened w' = opened w ++ hs
    /\ closed w' = closed w ++ hs
    /\ (multipart = false -> hs = []).
Proof.
  intros Hu H Hsent.
  destruct (@make_request_cases P url method headers payload multipart
              w o w' Hu H)
    as [[Hs _] | [req [hs [w1 [Hs [Ho [Hc [Hm Ha]]]]]]]]; [contradiction|].
  exists req, hs.
  destruct (@answer_files P req hs w1 o w' Ha) as [Ho' Hc'].
  apply answer_sent in Ha.
  repeat split; try assumption; congruence.
Qed.

End MainFacts.

(* ================================================================== *)
(** * From the arguments to the request *)
(* ================================================================== *)

Section RunFacts.

Local Open Scope py_scope.

(** [main] is [run] on the result of the scan of the flags. *)
Lemma main_run (P : Platform) (argv : list pystr) :
  main P argv
  = let '(raw_output, verbose, multipart, args) := parse_flags argv in
    run P raw_output verbose multipart args.
Proof.
  unfold main, parse_flags.
  destruct (take_flag (u "-r") false argv) as [raw0 args0].
  destruct (take_flag (u "--raw") raw0 args0) as [raw_output args1].
  destruct (take_flag (u "-v") false args1) as [verbose0 args2].
  destruct (take_flag (u "--verbose") verbose0 args2) as [verbose args3].
  destruct (take_flag (u "-m") false args3) as [multipart0 args4].
  destruct (take_flag (u "--multipart") multipart0 args4) as [multipart args].
  reflexivity.
Qed.

Lemma main_run_with (P : Platform) (argv : list pystr)
  (raw_output verbose multipart : bool) (args : list pystr) :
  parse_flags argv = (raw_output, verbose, multipart, args) ->
  main P argv = run P raw_output verbose multipart args.
Proof. intros H. rewrite main_run. now rewrite H. Qed.

Lemma no_help_has_endpoint (args : list pystr) :
  wants_help args = false -> (List.length args <? 1)%nat = false.
Proof. destruct args; [discriminate | reflexivity]. Qed.

(** The value [validate_environment] returns, and its silence. *)
Lemma validate_environment_value (P : Platform) (w w' : World)
  (env : pystr * pystr) :
  validate_environment P w = (Return env, w') ->
  w' = w
  /\ env = (rstrip [cp "/"] (or_empty (getenv P (u "MEALIE_URL"))),
            or_empty (getenv P (u "MEALIE_TOKEN"))).
Proof.
  unfold validate_environment.
  destruct (falsy (getenv P (u "MEALIE_URL"))); cbn [when].
  { rewrite (bind_exit _ (w1 := emit missing_url_report w) (c := 1%Z));
      [discriminate|].
    rewrite (bind_return _ (prints_print_color _ _ _)).
    rewrite (bind_return _ (prints_print _ _)).
    unfold sys_exit, missing_url_report. now rewrite emit_emit. }
  unfold bind at 1. unfold ret at 1.
  destruct (falsy (getenv P (u "MEALIE_TOKEN"))); cbn [when].
  { rewrite (bind_exit _ (w1 := emit missing_token_report w) (c := 1%Z));
      [discriminate|].
    rewrite (bind_return _ (prints_print_color _ _ _)).
    rewrite (bind_return _ (prints_print _ _)).
    unfold sys_exit, missing_token_report. now rewrite emit_emit. }
  unfold bind, ret. intros H. inversion H. now split.
Qed.

(** The request [make_request] issues, if it issues one. *)
Lemma make_request_sends (P : Platform) (url method : pystr)
  (headers : list (pystr * pystr)) (payload : pyvalue) (multipart : bool)
  (w : World) (o : outcome Response) (w' : World) :
  make_request P url method headers payload multipart w = (o, w') ->
  sent w' = sent w
  \/ exists hdrs body,
       sent w' = sent w ++ [mkRequest method url hdrs body 30]
       /\ (hdrs = headers
           \/ (multipart = true /\ hdrs = multipart_headers P headers))
       /\ (multipart = false -> stdout w' = stdout w \/ o = Exit 1).
Proof.
  intros H.
  destruct (mem_str method body_methods && negb (is_none payload) && multipart)
    eqn:Ec.
  - apply andb_true_iff in Ec. destruct Ec as [Ec ->].
    destruct (prepare_file_upload P payload w) as [o1 w1] eqn:Ep.
    pose proof (keeps_sent_prepare_file_upload P payload w) as Hs.
    rewrite Ep in Hs. cbn [snd] in Hs.
    destruct o1 as [[files data]|c|e].
    + right.
      rewrite (@make_request_multipart P url method headers payload w
                 files data w1 Ec Ep) in H.
      symmetry in H. apply answer_sent in H.
      exists (multipart_headers P headers), (MultipartBody files data).
      split; [congruence|]. split; [right; now split | discriminate].
    + left. unfold make_request, try_except_request in H.
      rewrite Ec in H. rewrite (bind_exit _ Ep) in H.
      inversion H. now subst.
    + left. unfold make_request, try_except_request in H.
      rewrite Ec in H. rewrite (bind_raise _ Ep) in H.
      destruct e as [|msg|name]; inversion H; now subst.
  - right. rewrite make_request_direct in H by exact Ec.
    symmetry in H. pose proof (answer_sent H) as Hsent.
    eexists _, _. split; [exact Hsent|]. split; [now left|].
    intros _. unfold answer in H.
    destruct (requests_request P _); inversion H; subst;
      [now left | now right | now left].
Qed.

Lemma usage_exit_never_returns (c : Z) (w : World) (a : unit) (w' : World) :
  (show_usage ;; sys_exit c) w <> (Return a, w').
Proof.
  destruct writer_show_usage as [[] [usage Husage]].
  rewrite (bind_return _ (Husage w)). discriminate.
Qed.

Lemma when_exit_returns (b : bool) (m : M unit) (w w1 : World) (a : unit) :
  when b m w = (Return a, w1) ->
  (forall x y x', m x <> (Return y, x')) ->
  w1 = w.
Proof.
  destruct b; cbn [when]; intros H Hm.
  - now apply Hm in H.
  - unfold ret in H. now inversion H.
Qed.

(** [run] either ends without having sent, opened or closed anything, or
    reaches [make_request] with the URL, the method and the headers that
    the arguments and the environment give, having parsed the payload. *)
Lemma run_reaches_request (P : Platform) (raw_output verbose multipart : bool)
  (args : list pystr) (w : World) (o : outcome unit) (w' : World) :
  run P raw_output verbose multipart args w = (o, w') ->
  same_io w w'
  \/ exists payload w1 w0,
       parse_json_payload P (nth 1 args []) w = (Return payload, w1)
       /\ same_io w w0
       /\ (verbose = false -> raw_output = true -> w0 = w1)
       /\ bind
            (make_request P
               (build_url
                  (rstrip [cp "/"] (or_empty (getenv P (u "MEALIE_URL"))))
                  (nth 0 args []))
               (determine_method P payload (nth_error args 2))
               (if negb multipart
                then [(u "Authorization",
                       u "Bearer " ++ or_empty (getenv P (u "MEALIE_TOKEN")));
                      (u "Accept", u "application/json");
                      (u "Content-Type", u "application/json")]
                else [(u "Authorization",
                       u "Bearer " ++ or_empty (getenv P (u "MEALIE_TOKEN")));
                      (u "Accept", u "application/json")])
               payload multipart)
            (fun response => finish P response raw_output verbose) w0
          = (o, w').
Proof.
  unfold run. intros H.
  apply bind_quiet in H; [|apply quiet_help].
  destruct H as [[[] [w1 [Hm1 [_ H]]]] | [H _]]; [|now left].
  apply when_exit_returns in Hm1; [|apply usage_exit_never_returns].
  subst w1.
  apply bind_quiet in H; [|apply quiet_missing_endpoint].
  destruct H as [[[] [w2 [Hm2 [_ H]]]] | [H _]]; [|now left].
  apply when_exit_returns in Hm2.
  2:{ intros x a x' Hx.
      rewrite (bind_return _ (prints_print_color _ _ _)) in Hx.
      now apply usage_exit_never_returns in Hx. }
  subst w2.
  apply bind_quiet in H; [|apply quiet_validate_environment].
  destruct H as [[env [w3 [He [_ H]]]] | [H _]]; [|now left].
  apply validate_environment_value in He. destruct He as [-> ->].
  cbn [fst snd] in H.
  apply bind_quiet in H; [|apply quiet_parse_json_payload].
  destruct H as [[payload [w4 [Hp [H4 H]]]] | [H _]]; [|now left].
  apply bind_quiet in H; [|apply quiet_request_info].
  destruct H as [[[] [w5 [Hi [H5 H]]]] | [H _]];
    [|left; now apply same_io_trans with w4].
  right. exists payload, w4, w5.
  split; [exact Hp|]. split; [now apply same_io_trans with w4|].
  split.
  - intros -> ->. cbn [negb when] in Hi. unfold ret in Hi. now inversion Hi.
  - destruct multipart; exact H.
Qed.

End RunFacts.

(* ================================================================== *)
(** * The claims *)
(* ================================================================== *)

Section Claims.

Local Open Scope py_scope.

(** ** Shell-escape repair (C3) *)

(** C3, as stated, fails: a valid JSON payload that itself holds an escaped
    double quote, with one backslash introduced before its opening brace,
    decodes before the escape is introduced, but the repaired text does
    not, and the parser exits with 1. *)
Lemma repair_corrupts_escaped_quote :
  let P := Sample.platform Sample.unreachable in
  let original := js "{'a':'b\'c'}" in
  let escaped := introduce [true] original in
  json_loads (loads_limits P) original
  = Decoded (PyDict [(u "a", PyStr (js "b'c"))])
  /\ escaped = backslash :: original
  /\ is_valid_json (loads_limits P) (fix_shell_escapes escaped) = false
  /\ fst (parse_json_payload P escaped initial_world) = Exit 1.
Proof. vm_compute. repeat split. Qed.

(** C3 (amended): for every valid JSON payload in which no backslash
    stands directly before a listed character, whatever listed characters
    get a backslash introduced before them, the repair pass gives the
    payload back, so that decoding the repaired text succeeds with the
    value of the original payload. *)
Theorem repair_restores_payload (L : Limits) (payload : pystr)
  (mask : list bool) (v : pyvalue) :
  no_listed_escape payload = true ->
  json_loads L payload = Decoded v ->
  fix_shell_escapes (introduce mask payload) = payload
  /\ json_loads L (fix_shell_escapes (introduce mask payload)) = Decoded v.
Proof.
  intros Hclean Hvalid.
  assert (H : fix_shell_escapes (introduce mask payload) = payload).
  { rewrite fix_shell_escapes_unescape. now apply unescape_introduce. }
  split; [exact H | now rewrite H].
Qed.

Lemma repair_restores_payload_witness :
  let payload := js "{'path': 'my file (1).txt', 'tags': ['a&b']}" in
  let mask := repeat true 50 in
  no_listed_escape payload = true
  /\ json_loads Sample.limits payload
     = Decoded (PyDict [(u "path", PyStr (u "my file (1).txt"));
                        (u "tags", PyList [PyStr (u "a&b")])])
  /\ introduce mask payload
     = js "\{\'path\':\ \'my\ file\ \(1\).txt\',\ \'tags\':\ \[\'a\&b\'\]\}"
  /\ json_loads Sample.limits (fix_shell_escapes (introduce mask payload))
     = Decoded (PyDict [(u "path", PyStr (u "my file (1).txt"));
                        (u "tags", PyList [PyStr (u "a&b")])]).
Proof.
  intros payload mask.
  split; [reflexivity|]. split; [reflexivity|]. split; [reflexivity|].
  apply (@repair_restores_payload Sample.limits payload mask); reflexivity.
Defined.

(** ** The payload [null] (C9) *)

(** C9: the payload argument [null] is valid JSON, the parser returns
    [None] for it (the absent payload), the method inferred without an
    explicit one is GET, and the request [make_request] issues carries no
    body, whatever the method and the mode. *)
Theorem null_payload_is_absent :
  (forall L, json_loads L (u "null") = Decoded PyNone)
  /\ (forall P w, parse_json_payload P (u "null") w = (Return PyNone, w))
  /\ (forall P, determine_method P PyNone None = u "GET")
  /\ (forall P url method headers multipart w,
        sent (snd (make_request P url method headers PyNone multipart w))
        = sent w ++ [mkRequest method url headers NoBody 30]).
Proof.
  split; [reflexivity|]. split; [reflexivity|]. split; [reflexivity|].
  intros P url method headers multipart w.
  rewrite make_request_direct.
  - rewrite sent_answer_snd. cbn [is_none negb]. now rewrite andb_false_r.
  - cbn [is_none negb]. now rewrite andb_false_r.
Qed.

(** An invocation with the payload [null] and no method: one GET request
    without a body. *)
Lemma null_payload_invocation :
  let P := Sample.platform (Sample.server 200 (u "application/json") (js "[]")) in
  let argv := [u "recipes"; u "null"] in
  fst (main P argv initial_world) = Exit 0
  /\ map req_method (sent (snd (main P argv initial_world))) = [u "GET"]
  /\ map req_body (sent (snd (main P argv initial_world))) = [NoBody].
Proof. vm_compute. repeat split. Qed.

(** ** The payload parser (C2) *)




(** ** The upload classifier (C4) *)

(** C4: when the classification of a payload returns, no key is both in
    [files] and in [data], the keys of [files] and [data] together are the
    keys of the payload, and a pair of the payload has its key in [files]
    exactly when it passes the file-reference test of the specification,
    and is in [data] exactly when it does not. *)
Theorem classification_partition (P : Platform)
  (items : list (pystr * pyvalue)) (files : list (pystr * handle))
  (data : list (pystr * pyvalue)) (w w' : World) :
  NoDup (keys items) ->
  prepare_file_upload P (PyDict items) w = (Return (files, data), w') ->
  (forall k, In k (keys files) -> ~ In k (keys data))
  /\ (forall k, In k (keys items) <-> In k (keys files) \/ In k (keys data))
  /\ (forall k v, In (k, v) items ->
        (In k (keys files) <-> looks_like_file P k v)
        /\ (In (k, v) data <-> ~ looks_like_file P k v)).
Proof.
  intros Hnd H.
  destruct (@prepare_file_upload_return P _ _ _ _ _ Hnd H) as [Hf [_ [Hd _]]].
  rewrite Hf, Hd. clear H Hf Hd.
  assert (Hfile : forall k v, In (k, v) items ->
            (In k (keys (file_items P items))
             <-> is_file_reference P k v = true)).
  { intros k v Hin. rewrite in_keys. unfold file_items. split.
    - intros [v' Hv']. apply filter_In in Hv'. destruct Hv' as [Hin' Hv'].
      now rewrite (@nodup_keys_value _ _ _ _ _ Hnd Hin Hin').
    - intros Hv. exists v. apply filter_In. now split. }
  assert (Hplain : forall k v, In (k, v) items ->
            (In k (keys (plain_items P items))
             <-> is_file_reference P k v = false)).
  { intros k v Hin. rewrite in_keys. unfold plain_items. split.
    - intros [v' Hv']. apply filter_In in Hv'. destruct Hv' as [Hin' Hv'].
      rewrite (@nodup_keys_value _ _ _ _ _ Hnd Hin Hin').
      now apply negb_true_iff in Hv'.
    - intros Hv. exists v. apply filter_In. split; [exact Hin|].
      unfold is_file_item. cbn [fst snd]. now rewrite Hv. }
  split; [|split].
  - intros k Hk Hk'.
    destruct (proj1 (@in_keys _ _ k) Hk) as [v Hv].
    unfold file_items in Hv. apply filter_In in Hv. destruct Hv as [Hin _].
    apply (Hfile k v Hin) in Hk. apply (Hplain k v Hin) in Hk'. congruence.
  - intros k. split.
    + intros Hk. apply in_keys in Hk. destruct Hk as [v Hin].
      destruct (is_file_reference P k v) eqn:E.
      * left. now apply (Hfile k v Hin).
      * right. now apply (Hplain k v Hin).
    + intros [Hk|Hk]; apply in_keys in Hk; destruct Hk as [v Hv];
        apply filter_In in Hv; destruct Hv as [Hin _];
        apply in_keys; now exists v.
  - intros k v Hin. rewrite <- is_file_reference_spec. split.
    + apply (Hfile k v Hin).
    + unfold plain_items. rewrite filter_In. unfold is_file_item.
      cbn [fst snd]. rewrite negb_true_iff, not_true_iff_false. tauto.
Qed.

Lemma classification_partition_witness :
  let P := Sample.platform Sample.unreachable in
  let items := [(u "archive", PyStr (u "~/backup.zip"));
                (u "name", PyStr (u "Test Recipe"));
                (u "servings", PyInt 4)] in
  let files := [(u "archive", mkHandle 0 (u "/home/cook/backup.zip"))] in
  let data := [(u "name", PyStr (u "Test Recipe")); (u "servings", PyInt 4)] in
  NoDup (keys items)
  /\ fst (prepare_file_upload P (PyDict items) initial_world)
     = Return (files, data)
  /\ (forall k, In k (keys files) -> ~ In k (keys data))
  /\ (forall k, In k (keys items) <-> In k (keys files) \/ In k (keys data)).
Proof.
  intros P items files data.
  assert (Hnd : NoDup (keys items)).
  { vm_compute. repeat constructor; cbn; intros H;
      repeat (destruct H as [H|H]; [discriminate H|]); exact H. }
  split; [exact Hnd|]. split; [reflexivity|].
  destruct (@classification_partition P items files data initial_world
              (snd (prepare_file_upload P (PyDict items) initial_world))
              Hnd eq_refl) as [H1 [H2 _]].
  split; assumption.
Defined.

(** ** Missing files (C5) *)




(** ** The exit code (C1) *)




(** ** Closing the uploaded files (C8) *)



(** When the classification stops at a missing file, no request goes out,
    and a file opened before the missing one is still open at exit. *)
Lemma missing_file_leaves_earlier_file_open :
  let P := Sample.platform Sample.unreachable in
  let payload := PyDict [(u "archive", PyStr (u "~/backup.zip"));
                         (u "file", PyStr (u "~/missing.zip"))] in
  let run := make_request P (u "https://mealie.example/api/backups")
               (u "POST") [] payload true initial_world in
  fst run = Exit 1
  /\ sent (snd run) = []
  /\ opened (snd run) = [mkHandle 0 (u "/home/cook/backup.zip")]
  /\ closed (snd run) = [].
Proof. vm_compute. repeat split. Qed.

(** In every invocation that sent a request, the files opened are the
    files closed when the process ends. *)
Lemma main_closes_files (P : Platform) (argv : list pystr)
  (o : outcome unit) (w' : World) :
  main P argv initial_world = (o, w') ->
  sent w' <> [] ->
  closed w' = opened w'.
Proof.
  intros Hmain Hsent.
  apply main_reaches_request in Hmain.
  destruct Hmain as [[Hs _] | Hmain]; [now elim Hsent|].
  destruct Hmain as [url [method [headers [payload [multipart [raw_output
                      [verbose [w0 [[Hs0 [Ho0 Hc0]] [Hu Hrun]]]]]]]]]].
  cbn [sent opened closed initial_world] in Hs0, Ho0, Hc0.
  assert (Hreq : forall o1 w1,
            make_request P url method headers payload multipart w0 = (o1, w1) ->
            sent w1 <> [] -> closed w1 = opened w1).
  { intros o1 w1 Hm Hne. rewrite <- Hs0 in Hne.
    destruct (@make_request_files P url method headers payload multipart
                w0 o1 w1 Hu Hm Hne) as [req [hs [_ [Ho [Hc _]]]]].
    now rewrite Ho, Hc, Ho0, Hc0. }
  apply bind_inv in Hrun.
  destruct Hrun as [[a [w1 [Hm Hk]]] | [[c [Hm Ho]] | [e [Hm Ho]]]].
  - apply finish_same_io in Hk. destruct Hk as [_ [Hs1 [Ho1 Hc1]]].
    rewrite Ho1, Hc1. apply (Hreq _ _ Hm). now rewrite <- Hs1.
  - now apply (Hreq _ _ Hm).
  - now apply (Hreq _ _ Hm).
Qed.

(** ** Raw mode (C6) *)



(** ** A JSON content type on a body that is not JSON (C7) *)




(** ** Payloads that are not mappings (C10) *)


(** In multipart mode a payload that is not a mapping has no [items]: the
    invocation ends in an uncaught [AttributeError] before any request. *)
Lemma array_payload_multipart_raises :
  let P := Sample.platform (Sample.server 200 (u "application/json") (js "{}")) in
  let argv := [u "recipes"; u "[1, 2]"; u "--multipart"] in
  fst (main P argv initial_world) = Raise AttributeError
  /\ exit_status (fst (main P argv initial_world)) = 1%Z
  /\ sent (snd (main P argv initial_world)) = [].
Proof. vm_compute. repeat split. Qed.



End Claims.

(* ================================================================== *)
(** * Further properties of the program *)
(* ================================================================== *)

Section Further.

Local Open Scope py_scope.

(** ** The repair of shell escapes *)

Lemma unescape_keeps_others (L : list N) (s : pystr) :
  filter not_backslash (unescape L s) = filter not_backslash s.
Proof.
  induction s as [|c t IH]; [reflexivity|].
  cbn [unescape].
  destruct ((c =? backslash)%N && next_in L t) eqn:E.
  - apply andb_true_iff in E. destruct E as [E _].
    cbn [filter]. unfold not_backslash at 2. now rewrite E.
  - cbn [filter]. now rewrite IH.
Qed.

Lemma unescape_shorter (L : list N) (s : pystr) :
  (List.length (unescape L s) <= List.length s)%nat.
Proof.
  induction s as [|c t IH]; [apply le_n|].
  cbn [unescape].
  destruct ((c =? backslash)%N && next_in L t); cbn [List.length]; lia.
Qed.

Lemma unescape_plain (L : list N) (s : pystr) :
  forallb not_backslash s = true -> unescape L s = s.
Proof.
  induction s as [|c t IH]; [reflexivity|].
  cbn [forallb unescape]. intros H. apply andb_true_iff in H.
  destruct H as [Hc Ht]. unfold not_backslash in Hc.
  apply negb_true_iff in Hc. rewrite Hc. cbn [andb]. now rewrite IH.
Qed.

(** X1: the sixteen successive replacements of the repair amount to one
    pass over the payload that drops every backslash standing directly
    before a space, a parenthesis, a bracket, a brace, an ampersand, a
    semicolon, a redirect, a pipe, a dollar, a backquote or a quote, and
    keeps everything else. *)
Theorem repair_is_single_pass (payload : pystr) :
  fix_shell_escapes payload = unescape shell_chars payload.
Proof. apply fix_shell_escapes_unescape. Qed.

(** X2: the repair only ever deletes backslashes: the characters other
    than backslashes are the same, in the same order, before and after; the
    repaired text is never longer; and a payload without a backslash is
    left as it is. *)
Theorem repair_only_deletes_backslashes (payload : pystr) :
  filter not_backslash (fix_shell_escapes payload)
  = filter not_backslash payload
  /\ (List.length (fix_shell_escapes payload) <= List.length payload)%nat
  /\ (forallb not_backslash payload = true ->
      fix_shell_escapes payload = payload).
Proof.
  rewrite fix_shell_escapes_unescape. split; [|split].
  - apply unescape_keeps_others.
  - apply unescape_shorter.
  - apply unescape_plain.
Qed.

Lemma repair_only_deletes_backslashes_witness :
  fix_shell_escapes (js "{'path': '/tmp/a.zip'}") = js "{'path': '/tmp/a.zip'}"
  /\ filter not_backslash (fix_shell_escapes (u "{\[1\]: \n}"))
     = u "{[1]: n}".
Proof.
  destruct (repair_only_deletes_backslashes (js "{'path': '/tmp/a.zip'}"))
    as [_ [_ Hplain]].
  destruct (repair_only_deletes_backslashes (u "{\[1\]: \n}")) as [Hkeep _].
  split.
  - apply Hplain. reflexivity.
  - rewrite Hkeep. reflexivity.
Defined.

(** ** The payload parser *)

(** X3: the payload parser returns a value in three ways only: [None] for
    a blank string, silently; the value the decoder returns for the
    string, silently and without any repair; or, for a string that is not
    blank and that the decoder rejects with a [JSONDecodeError], the value
    the decoder returns for its repaired form, after the notice that shell
    escapes were fixed. *)
Theorem parse_json_payload_returns (P : Platform) (payload : pystr)
  (v : pyvalue) (w w' : World) :
  parse_json_payload P payload w = (Return v, w')
  <-> (blank payload = true /\ v = PyNone /\ w' = w)
      \/ (json_loads (loads_limits P) payload = Decoded v /\ w' = w)
      \/ (blank payload = false
          /\ (exists e, json_loads (loads_limits P) payload = DecodeError e)
          /\ json_loads (loads_limits P) (fix_shell_escapes payload)
             = Decoded v
          /\ w' = emit (colored Colors.CYAN
                          (u "Fixed shell escapes in JSON payload")) w).
Proof.
  unfold parse_json_payload. rewrite blank_guard.
  destruct (blank payload) eqn:Eb.
  { destruct (blank_decode_error (loads_limits P) payload Eb) as [e0 Hj].
    split.
    - intros H. inversion H. now left.
    - intros [[_ [-> ->]] | [[H _] | [H _]]]; [reflexivity| |discriminate H].
      rewrite H in Hj. discriminate Hj. }
  destruct (json_loads (loads_limits P) payload) as [v0|e0|f0].
  { split.
    - intros H. inversion H. right. now left.
    - intros [[H _] | [[H ->] | [_ [[e H] _]]]]; try discriminate H.
      now inversion H. }
  2:{ split; [intros H; discriminate H|].
      intros [[H _] | [[H _] | [_ [[e H] _]]]]; discriminate H. }
  rewrite (bind_return _ (prints_print_color _ _ _)).
  destruct (json_loads (loads_limits P) (fix_shell_escapes payload))
    as [v1|e1|f1].
  { split.
    - intros H. inversion H. right. right. repeat split. now exists e0.
    - intros [[H _] | [[H _] | [_ [_ [H ->]]]]]; try discriminate H.
      now inversion H. }
  2:{ split; [intros H; discriminate H|].
      intros [[H _] | [[H _] | [_ [_ [H _]]]]]; discriminate H. }
  rewrite !(bind_return _ (prints_print_color _ _ _)).
  split; [discriminate|].
  intros [[H _] | [[H _] | [_ [_ [H _]]]]]; discriminate H.
Qed.

Lemma parse_json_payload_returns_witness :
  let P := Sample.platform Sample.unreachable in
  parse_json_payload P (bq "{\`name\`: \`soup\`}") initial_world
  = (Return (PyDict [(u "name", PyStr (u "soup"))]),
     emit (colored Colors.CYAN (u "Fixed shell escapes in JSON payload"))
       initial_world).
Proof.
  intros P.
  apply parse_json_payload_returns. right. right.
  split; [reflexivity|]. split; [eexists; vm_compute; reflexivity|].
  split; vm_compute; reflexivity.
Defined.

(** ** The arguments and the environment *)

(** X4: when, once the flags are taken out, no argument is left or the
    first one is [-h] or [--help], the invocation prints the usage text and
    nothing else, and exits with 0; the environment is not consulted and
    nothing is sent. *)
Theorem help_shows_usage (P : Platform) (argv : list pystr) (w : World) :
  wants_help (snd (parse_flags argv)) = true ->
  exists usage,
    prints show_usage tt usage
    /\ main P argv w = (Exit 0, emit usage w).
Proof.
  intros Hhelp.
  destruct (parse_flags argv) as [[[raw_output verbose] multipart] args] eqn:E.
  cbn [snd] in Hhelp.
  destruct writer_show_usage as [[] [usage Husage]].
  exists usage. split; [exact Husage|].
  rewrite (main_run_with P _ E). unfold run. rewrite Hhelp. cbn [when].
  unfold bind at 1. unfold bind at 1. now rewrite Husage.
Qed.

Lemma help_shows_usage_witness :
  let P := Sample.platform Sample.unreachable in
  let argv := [u "--verbose"; u "-h"; u "recipes"; u "-r"] in
  wants_help (snd (parse_flags argv)) = true
  /\ fst (main P argv initial_world) = Exit 0
  /\ sent (snd (main P argv initial_world)) = [].
Proof.
  intros P argv.
  destruct (@help_shows_usage P argv initial_world) as [usage [_ H]];
    [reflexivity|].
  split; [reflexivity|]. rewrite H. split; reflexivity.
Defined.

(** X5: when an endpoint is given and [MEALIE_URL] is unset or empty, the
    invocation exits with 1 after the report on [MEALIE_URL] alone; when
    [MEALIE_URL] is set and [MEALIE_TOKEN] is unset or empty, it exits with
    1 after the report on [MEALIE_TOKEN] alone. In both cases the payload
    is not parsed and nothing is sent, opened or closed. *)
Theorem missing_environment_is_fatal (P : Platform) (argv : list pystr)
  (w : World) :
  wants_help (snd (parse_flags argv)) = false ->
  falsy (getenv P (u "MEALIE_URL")) || falsy (getenv P (u "MEALIE_TOKEN"))
  = true ->
  main P argv w
  = (Exit 1,
     emit (if falsy (getenv P (u "MEALIE_URL")) then missing_url_report
           else missing_token_report) w).
Proof.
  intros Hhelp Henv.
  destruct (parse_flags argv) as [[[raw_output verbose] multipart] args] eqn:E.
  cbn [snd] in Hhelp.
  rewrite (main_run_with P _ E). unfold run.
  rewrite Hhelp, (no_help_has_endpoint _ Hhelp). cbn [when].
  unfold bind at 1. unfold ret at 1. unfold bind at 1. unfold ret at 1.
  unfold bind at 1. unfold validate_environment.
  destruct (falsy (getenv P (u "MEALIE_URL"))) eqn:Eu; cbn [when].
  - rewrite (bind_exit _
               (w1 := emit missing_url_report w) (c := 1%Z)); [reflexivity|].
    rewrite (bind_return _ (prints_print_color _ _ _)).
    rewrite (bind_return _ (prints_print _ _)).
    unfold sys_exit, missing_url_report. now rewrite emit_emit.
  - cbn [orb] in Henv. rewrite Henv. cbn [when].
    unfold bind at 1. unfold ret at 1.
    rewrite (bind_exit _
               (w1 := emit missing_token_report w) (c := 1%Z)); [reflexivity|].
    rewrite (bind_return _ (prints_print_color _ _ _)).
    rewrite (bind_return _ (prints_print _ _)).
    unfold sys_exit, missing_token_report. now rewrite emit_emit.
Qed.

Lemma missing_environment_is_fatal_witness :
  let P := mkPlatform
             (fun name => if Str.eqb name (u "MEALIE_URL")
                          then Some (u "https://mealie.example") else None)
             Sample.expand (fun _ => false) (fun _ => 0%N)
             (map Sample.lower_char) (map Sample.upper_char)
             (fun _ _ _ => Some []) (fun _ => Some []) (fun _ => [])
             (fun _ => [])
             (fun _ => None) Sample.unreachable Sample.limits Sample.limits in
  let argv := [u "recipes"; u "{not json"; u "-m"] in
  main P argv initial_world
  = (Exit 1, emit missing_token_report initial_world).
Proof.
  intros P argv.
  apply (@missing_environment_is_fatal P argv initial_world); reflexivity.
Defined.

Lemma lstrip_by_split (p : N -> bool) (s : pystr) :
  exists t, s = t ++ lstrip_by p s /\ forallb p t = true.
Proof.
  induction s as [|c s [t [Hs Ht]]]; [now exists []|].
  cbn [lstrip_by]. destruct (p c) eqn:E.
  - exists (c :: t). cbn [app forallb]. rewrite E, Ht. split; [|reflexivity].
    now rewrite <- Hs.
  - now exists [].
Qed.

Lemma lstrip_by_head (p : N -> bool) (s : pystr) (c : N) (r : pystr) :
  lstrip_by p s = c :: r -> p c = false.
Proof.
  induction s as [|d s IH]; [discriminate|].
  cbn [lstrip_by]. destruct (p d) eqn:E; [exact IH|].
  intros H. inversion H. now subst.
Qed.

Lemma rstrip_by_split (p : N -> bool) (s : pystr) :
  exists t, s = rstrip_by p s ++ t /\ forallb p t = true.
Proof.
  unfold rstrip_by. destruct (lstrip_by_split p (rev s)) as [t [Hs Ht]].
  exists (rev t). split; [|now rewrite forallb_rev].
  rewrite <- rev_app_distr, <- Hs. now rewrite rev_involutive.
Qed.

Lemma rstrip_by_last (p : N -> bool) (s r : pystr) (c : N) :
  rstrip_by p s = r ++ [c] -> p c = false.
Proof.
  unfold rstrip_by. intros H. apply (f_equal (@rev N)) in H.
  rewrite rev_involutive, rev_app_distr in H. cbn in H.
  now apply lstrip_by_head in H.
Qed.

Lemma forallb_pointwise (p q : N -> bool) (s : pystr) :
  (forall x, p x = q x) -> forallb p s = forallb q s.
Proof.
  intros H. induction s as [|c s IH]; [reflexivity|].
  cbn [forallb]. now rewrite H, IH.
Qed.

(** X6: when [validate_environment] returns, it has printed nothing, the
    token is the non-empty value of [MEALIE_TOKEN], and the base URL is the
    value of [MEALIE_URL] without its trailing slashes: the value is the
    base URL followed by slashes only, and the base URL does not end with a
    slash. *)
Theorem validate_environment_returns (P : Platform) (w w' : World)
  (base_url token : pystr) :
  validate_environment P w = (Return (base_url, token), w') ->
  w' = w
  /\ getenv P (u "MEALIE_TOKEN") = Some token
  /\ token <> []
  /\ (exists slashes,
        getenv P (u "MEALIE_URL") = Some (base_url ++ slashes)
        /\ forallb is_slash slashes = true)
  /\ (forall r, base_url <> r ++ [cp "/"]).
Proof.
  unfold validate_environment.
  destruct (getenv P (u "MEALIE_URL")) as [[|c url]|] eqn:Eu; cbn [falsy when].
  - rewrite (bind_exit _ (w1 := emit missing_url_report w) (c := 1%Z));
      [discriminate|].
    rewrite (bind_return _ (prints_print_color _ _ _)).
    rewrite (bind_return _ (prints_print _ _)).
    unfold sys_exit, missing_url_report. now rewrite emit_emit.
  - destruct (getenv P (u "MEALIE_TOKEN")) as [[|d tok]|] eqn:Et;
      cbn [falsy when].
    2:{ unfold bind, ret. cbn [or_empty]. intros H. inversion H. subst.
        split; [reflexivity|]. split; [reflexivity|].
        split; [discriminate|].
        unfold rstrip.
        destruct (rstrip_by_split (fun x => mem x [cp "/"]) (c :: url))
          as [t [Hs Ht]].
        split.
        - exists t. split; [now rewrite <- Hs|].
          rewrite <- Ht. apply forallb_pointwise. intros x.
          unfold is_slash, mem.
          cbn [existsb]. now rewrite orb_false_r.
        - intros r Hr. apply rstrip_by_last in Hr.
          unfold mem in Hr. cbn [existsb] in Hr.
          now rewrite N.eqb_refl in Hr. }
    all: unfold bind at 1; unfold ret at 1;
      rewrite (bind_exit _ (w1 := emit missing_token_report w) (c := 1%Z));
      [discriminate|];
      rewrite (bind_return _ (prints_print_color _ _ _));
      rewrite (bind_return _ (prints_print _ _));
      unfold sys_exit, missing_token_report; now rewrite emit_emit.
  - rewrite (bind_exit _ (w1 := emit missing_url_report w) (c := 1%Z));
      [discriminate|].
    rewrite (bind_return _ (prints_print_color _ _ _)).
    rewrite (bind_return _ (prints_print _ _)).
    unfold sys_exit, missing_url_report. now rewrite emit_emit.
Qed.

Lemma validate_environment_returns_witness :
  let P := Sample.platform Sample.unreachable in
  validate_environment P initial_world
  = (Return (u "https://mealie.example", u "0123456789abcdef"), initial_world)
  /\ getenv P (u "MEALIE_URL") = Some (u "https://mealie.example" ++ u "/")
  /\ forall r, u "https://mealie.example" <> r ++ [cp "/"].
Proof.
  intros P.
  destruct (@validate_environment_returns P initial_world initial_world
              (u "https://mealie.example") (u "0123456789abcdef") eq_refl)
    as [_ [_ [_ [_ H]]]].
  repeat split. exact H.
Defined.

(** X7: an endpoint is joined to the base URL through [/api/] whether or
    not it is written with a leading slash: for an endpoint without a
    leading slash the URL is the base URL, [/api/] and the endpoint, and
    writing one slash before the endpoint gives the same URL. *)
Theorem build_url_leading_slash (base_url endpoint : pystr) :
  startswith endpoint (u "/") = false ->
  build_url base_url endpoint = base_url ++ u "/api/" ++ endpoint
  /\ build_url base_url (cp "/" :: endpoint) = build_url base_url endpoint.
Proof.
  intros H. unfold build_url. rewrite H.
  change (startswith (cp "/" :: endpoint) (u "/")) with true.
  split; reflexivity.
Qed.

Lemma build_url_leading_slash_witness :
  build_url (u "https://mealie.example") (u "/users/self")
  = u "https://mealie.example/api/users/self"
  /\ build_url (u "https://mealie.example") (u "/users/self")
     = build_url (u "https://mealie.example") (u "users/self").
Proof.
  destruct (@build_url_leading_slash (u "https://mealie.example")
              (u "users/self") eq_refl) as [H1 H2].
  change (u "/users/self") with (cp "/" :: u "users/self").
  split; [|exact H2]. rewrite H2. exact H1.
Defined.

(** ** The flags *)

Lemma mem_str_false (x : pystr) (l : list pystr) :
  ~ In x l -> mem_str x l = false.
Proof.
  intros H. destruct (mem_str x l) eqn:E; [|reflexivity].
  apply mem_str_In in E. contradiction.
Qed.

Lemma remove_first_absent (g : pystr) (a : list pystr) :
  ~ In g a -> remove_first g a = a.
Proof.
  induction a as [|x a IH]; [reflexivity|].
  intros H. cbn [remove_first].
  destruct (Str.eqb x g) eqn:E.
  - apply str_eqb_eq in E. subst. elim H. now left.
  - rewrite IH; [reflexivity|]. intros Hin. apply H. now right.
Qed.

Lemma remove_first_app_in (g : pystr) (a b : list pystr) :
  In g a -> remove_first g (a ++ b) = remove_first g a ++ b.
Proof.
  induction a as [|x a IH]; [intros []|].
  intros H. cbn [remove_first app].
  destruct (Str.eqb x g) eqn:E; [reflexivity|].
  destruct H as [H|H].
  - subst. now rewrite str_eqb_refl in E.
  - cbn [app]. now rewrite IH.
Qed.

Lemma remove_first_app_absent (g : pystr) (a b : list pystr) :
  ~ In g a -> remove_first g (a ++ b) = a ++ remove_first g b.
Proof.
  induction a as [|x a IH]; [reflexivity|].
  intros H. cbn [remove_first app].
  destruct (Str.eqb x g) eqn:E.
  - apply str_eqb_eq in E. subst. elim H. now left.
  - rewrite IH; [reflexivity|]. intros Hin. apply H. now right.
Qed.

Lemma remove_first_incl (g x : pystr) (a : list pystr) :
  In x (remove_first g a) -> In x a.
Proof.
  induction a as [|y a IH]; [intros []|].
  cbn [remove_first]. destruct (Str.eqb y g).
  - intros H. now right.
  - intros [H|H]; [now left | right; now apply IH].
Qed.

Lemma take_flag_at (flag : pystr) (var : bool) (before after : list pystr) :
  ~ In flag before ->
  take_flag flag var (before ++ flag :: after) = (true, before ++ after).
Proof.
  intros H. unfold take_flag.
  replace (mem_str flag (before ++ flag :: after)) with true.
  - rewrite remove_first_app_absent by exact H.
    cbn [remove_first]. now rewrite str_eqb_refl.
  - symmetry. apply mem_str_In, in_or_app. right. now left.
Qed.

(** X8: a flag is taken out where it first stands, and only there: when
    the flag does not occur before some position where it stands, the
    mode is switched on and the arguments left are those before and those
    after that position, in their order; later occurrences of the same
    flag stay among the arguments. *)
Theorem take_flag_first_occurrence (flag : pystr) (var : bool)
  (before after : list pystr) :
  ~ In flag before ->
  take_flag flag var (before ++ flag :: after) = (true, before ++ after).
Proof. apply take_flag_at. Qed.

Lemma take_flag_first_occurrence_witness :
  take_flag (u "-r") false [u "recipes"; u "-r"; u "{}"; u "-r"]
  = (true, [u "recipes"; u "{}"; u "-r"]).
Proof.
  apply (@take_flag_first_occurrence (u "-r") false [u "recipes"]
           [u "{}"; u "-r"]).
  cbn. intros [H|[]]. discriminate H.
Defined.

Lemma take_flag_moved_front (f g : pystr) (v : bool) (l l' : list pystr) :
  moved_front f l l' ->
  fst (take_flag g v l) = fst (take_flag g v l')
  /\ moved_front f (snd (take_flag g v l)) (snd (take_flag g v l'))
  /\ (g = f \/ l = l' ->
      snd (take_flag g v l) = snd (take_flag g v l')).
Proof.
  intros [-> | [a [b [Ha [-> ->]]]]].
  { repeat split; try reflexivity. now left. }
  assert (Hmem : mem_str g (a ++ f :: b) = mem_str g (f :: a ++ b)).
  { unfold mem_str. rewrite existsb_app. cbn [existsb]. rewrite existsb_app.
    destruct (existsb (Str.eqb g) a), (Str.eqb g f); reflexivity. }
  destruct (Str.eqb f g) eqn:Efg.
  - apply str_eqb_eq in Efg. subst g.
    rewrite take_flag_at by exact Ha.
    pose proof (@take_flag_at f v [] (a ++ b) (fun x => x))
      as Hfront.
    cbn [app] in Hfront. rewrite Hfront.
    cbn [fst snd]. repeat split; try reflexivity. now left.
  - assert (Hne : g <> f).
    { intros ->. now rewrite str_eqb_refl in Efg. }
    unfold take_flag. rewrite <- Hmem.
    destruct (mem_str g (a ++ f :: b)) eqn:Em; cbn [fst snd].
    + split; [reflexivity|]. split.
      * right. cbn [remove_first]. rewrite Efg.
        destruct (mem_str g a) eqn:Ea.
        -- apply mem_str_In in Ea.
           exists (remove_first g a), b. split; [|split].
           ++ intros Hin. apply Ha. now apply remove_first_incl in Hin.
           ++ now rewrite remove_first_app_in.
           ++ now rewrite remove_first_app_in.
        -- assert (Hga : ~ In g a).
           { intros Hin. apply mem_str_In in Hin. congruence. }
           exists a, (remove_first g b). split; [exact Ha|]. split.
           ++ rewrite remove_first_app_absent by exact Hga.
              cbn [remove_first]. now rewrite Efg.
           ++ now rewrite remove_first_app_absent.
      * intros [H|H]; [contradiction|].
        now rewrite H.
    + split; [reflexivity|]. split.
      * right. now exists a, b.
      * intros [H|H]; [contradiction | exact H].
Qed.

Lemma parse_flags_moved_front (f : pystr) (l l' : list pystr) :
  In f known_flags ->
  moved_front f l l' ->
  parse_flags l = parse_flags l'.
Proof.
  intros Hf H0. unfold parse_flags.
  destruct (take_flag_moved_front (u "-r") false H0) as [B1 [H1 E1]].
  destruct (take_flag (u "-r") false l) as [r0 a0].
  destruct (take_flag (u "-r") false l') as [r0' a0'].
  cbn [fst snd] in B1, H1, E1. subst r0'.
  destruct (take_flag_moved_front (u "--raw") r0 H1) as [B2 [H2 E2]].
  destruct (take_flag (u "--raw") r0 a0) as [r1 a1].
  destruct (take_flag (u "--raw") r0 a0') as [r1' a1'].
  cbn [fst snd] in B2, H2, E2. subst r1'.
  destruct (take_flag_moved_front (u "-v") false H2) as [B3 [H3 E3]].
  destruct (take_flag (u "-v") false a1) as [v0 a2].
  destruct (take_flag (u "-v") false a1') as [v0' a2'].
  cbn [fst snd] in B3, H3, E3. subst v0'.
  destruct (take_flag_moved_front (u "--verbose") v0 H3) as [B4 [H4 E4]].
  destruct (take_flag (u "--verbose") v0 a2) as [v1 a3].
  destruct (take_flag (u "--verbose") v0 a2') as [v1' a3'].
  cbn [fst snd] in B4, H4, E4. subst v1'.
  destruct (take_flag_moved_front (u "-m") false H4) as [B5 [H5 E5]].
  destruct (take_flag (u "-m") false a3) as [m0 a4].
  destruct (take_flag (u "-m") false a3') as [m0' a4'].
  cbn [fst snd] in B5, H5, E5. subst m0'.
  destruct (take_flag_moved_front (u "--multipart") m0 H5) as [B6 [H6 E6]].
  destruct (take_flag (u "--multipart") m0 a4) as [m1 a5].
  destruct (take_flag (u "--multipart") m0 a4') as [m1' a5'].
  cbn [fst snd] in B6, H6, E6. subst m1'.
  assert (a5 = a5') as ->; [|reflexivity].
  unfold known_flags in Hf. cbn [In] in Hf.
  intuition.
Qed.

(** X9: a flag may stand anywhere among the arguments: moving the first
    occurrence of [-r], [--raw], [-v], [--verbose], [-m] or [--multipart] to
    the front of the command line changes nothing of what the invocation
    does. *)
Theorem flag_position_is_free (P : Platform) (flag : pystr)
  (before after : list pystr) :
  In flag known_flags ->
  ~ In flag before ->
  main P (before ++ flag :: after) = main P (flag :: before ++ after).
Proof.
  intros Hf Hb. rewrite !main_run.
  rewrite (@parse_flags_moved_front flag (before ++ flag :: after)
             (flag :: before ++ after) Hf); [reflexivity|].
  right. now exists before, after.
Qed.

Lemma flag_position_is_free_witness :
  let P := Sample.platform (Sample.server 200 (u "text/plain") (u "ok")) in
  main P [u "recipes"; js "{'name':'x'}"; u "--raw"; u "PUT"]
  = main P [u "--raw"; u "recipes"; js "{'name':'x'}"; u "PUT"].
Proof.
  intros P.
  apply (@flag_position_is_free P (u "--raw")
           [u "recipes"; js "{'name':'x'}"] [u "PUT"]).
  - unfold known_flags. cbn. tauto.
  - cbn. intros [H|[H|[]]]; discriminate H.
Defined.

(** ** The request of an invocation *)

(** What [run] has sent when it ends: nothing, or the one request that the
    arguments and the environment give. *)
Lemma run_sends (P : Platform) (raw_output verbose multipart : bool)
  (args : list pystr) (w : World) (o : outcome unit) (w' : World) :
  run P raw_output verbose multipart args w = (o, w') ->
  let base :=
    [(u "Authorization",
      u "Bearer " ++ or_empty (getenv P (u "MEALIE_TOKEN")));
     (u "Accept", u "application/json")] in
  sent w' = sent w
  \/ exists payload w1 hdrs body,
       parse_json_payload P (nth 1 args []) w = (Return payload, w1)
       /\ sent w' = sent w ++
            [mkRequest (determine_method P payload (nth_error args 2))
               (build_url
                  (rstrip [cp "/"] (or_empty (getenv P (u "MEALIE_URL"))))
                  (nth 0 args []))
               hdrs body 30]
       /\ (if multipart then incl hdrs base
           else hdrs = base ++ [(u "Content-Type", u "application/json")]).
Proof.
  intros H base. apply run_reaches_request in H.
  destruct H as [[Hs _] | [payload [w1 [w0 [Hp [[Hs0 _] [_ H]]]]]]];
    [now left|].
  assert (Hreq : forall o1 w2,
            make_request P
              (build_url
                 (rstrip [cp "/"] (or_empty (getenv P (u "MEALIE_URL"))))
                 (nth 0 args []))
              (determine_method P payload (nth_error args 2))
              (if negb multipart
               then base ++ [(u "Content-Type", u "application/json")]
               else base)
              payload multipart w0 = (o1, w2) ->
            sent w2 = sent w
            \/ exists hdrs body,
                 sent w2 = sent w ++
                   [mkRequest (determine_method P payload (nth_error args 2))
                      (build_url
                         (rstrip [cp "/"]
                            (or_empty (getenv P (u "MEALIE_URL"))))
                         (nth 0 args []))
                      hdrs body 30]
                 /\ (if multipart then incl hdrs base
                     else hdrs = base
                                 ++ [(u "Content-Type", u "application/json")])).
  { intros o1 w2 Hm. apply make_request_sends in Hm.
    destruct Hm as [Hm | [hdrs [body [Hm [Hh _]]]]]; [left; congruence|].
    right. exists hdrs, body. split; [congruence|].
    destruct multipart; cbn [negb] in Hh.
    - destruct Hh as [-> | [_ ->]]; [apply incl_refl|].
      unfold multipart_headers. apply incl_filter.
    - destruct Hh as [-> | [Hf _]]; [reflexivity | discriminate Hf]. }
  apply bind_inv in H.
  destruct H as [[a [w2 [Hm Hk]]] | [[c [Hm _]] | [e [Hm _]]]].
  - apply finish_same_io in Hk. destruct Hk as [_ [Hs2 _]].
    destruct (Hreq _ _ Hm) as [Hs | [hdrs [body [Hs Hh]]]].
    + left. congruence.
    + right. exists payload, w1, hdrs, body.
      split; [exact Hp|]. split; [congruence | exact Hh].
  - destruct (Hreq _ _ Hm) as [Hs | [hdrs [body [Hs Hh]]]]; [now left|].
    right. now exists payload, w1, hdrs, body.
  - destruct (Hreq _ _ Hm) as [Hs | [hdrs [body [Hs Hh]]]]; [now left|].
    right. now exists payload, w1, hdrs, body.
Qed.




(** The stdout that [answer] leaves when the transport raises a
    [RequestException]. *)
Lemma answer_request_exception (P : Platform) (req : Request)
  (hs : list handle) (w : World) (o : outcome Response) (w' : World)
  (msg : pystr) :
  (o, w') = answer P req hs w ->
  requests_request P req = RequestException msg ->
  o = Exit 1 /\ stdout w' = stdout w ++ request_failed msg.
Proof.
  unfold answer. intros H Hr. rewrite Hr in H. inversion H. now split.
Qed.



(** A payload argument that is blank or valid JSON is parsed in silence. *)
Lemma parse_json_payload_silent (P : Platform) (payload : pystr)
  (v : pyvalue) (w w' : World) :
  blank payload = true \/ is_valid_json (loads_limits P) payload = true ->
  parse_json_payload P payload w = (Return v, w') ->
  w' = w.
Proof.
  unfold parse_json_payload, is_valid_json. rewrite blank_guard.
  intros Hok. destruct (blank payload).
  { intros H. now inversion H. }
  destruct Hok as [Hok | Hok]; [discriminate Hok|].
  destruct (json_loads (loads_limits P) payload); try discriminate Hok.
  intros H. now inversion H.
Qed.



(** ** The positional arguments *)

(** [run] reads the first three arguments only. *)
Lemma run_firstn (P : Platform) (raw_output verbose multipart : bool)
  (args : list pystr) :
  run P raw_output verbose multipart args
  = run P raw_output verbose multipart (firstn 3 args).
Proof. destruct args as [|a [|b [|c rest]]]; reflexivity. Qed.

(** X14: an invocation reads at most three arguments besides the flags:
    two command lines with the same modes whose arguments, once the flags
    are taken out, agree on the first three behave alike, whatever comes
    after them. *)
Theorem surplus_arguments_ignored (P : Platform) (argv argv' : list pystr)
  (raw_output verbose multipart : bool) (args args' : list pystr) :
  parse_flags argv = (raw_output, verbose, multipart, args) ->
  parse_flags argv' = (raw_output, verbose, multipart, args') ->
  firstn 3 args = firstn 3 args' ->
  main P argv = main P argv'.
Proof.
  intros H H' Hargs.
  rewrite (main_run_with P _ H), (main_run_with P _ H').
  rewrite run_firstn, Hargs. symmetry. apply run_firstn.
Qed.

Lemma surplus_arguments_ignored_witness :
  let P := Sample.platform (Sample.server 200 (u "application/json") (js "{}")) in
  main P [u "-r"; u "recipes"; js "{'name': 'soup'}"; u "put"; u "now";
          u "--dry-run"]
  = main P [u "recipes"; js "{'name': 'soup'}"; u "put"; u "--raw"].
Proof.
  intros P.
  apply (@surplus_arguments_ignored P _ _ true false false
           [u "recipes"; js "{'name': 'soup'}"; u "put"; u "now";
            u "--dry-run"]
           [u "recipes"; js "{'name': 'soup'}"; u "put"]);
    vm_compute; reflexivity.
Defined.

Lemma parse_json_payload_blank (P : Platform) (payload : pystr) :
  blank payload = true -> parse_json_payload P payload = ret PyNone.
Proof.
  intros H. unfold parse_json_payload. now rewrite blank_guard, H.
Qed.

(** X15: a second argument that is empty or made of whitespace only is as
    good as none, and so is an empty third argument: the invocation behaves
    as the one without them. *)
Theorem blank_arguments_are_absent (P : Platform) (argv argv' : list pystr)
  (raw_output verbose multipart : bool) (endpoint payload : pystr) :
  parse_flags argv' = (raw_output, verbose, multipart, [endpoint]) ->
  parse_flags argv = (raw_output, verbose, multipart, [endpoint; payload])
  \/ parse_flags argv
     = (raw_output, verbose, multipart, [endpoint; payload; []]) ->
  blank payload = true ->
  main P argv = main P argv'.
Proof.
  intros H' H Hblank. rewrite (main_run_with P _ H').
  assert (Hnone : parse_json_payload P [] = ret PyNone) by reflexivity.
  destruct H as [H | H]; rewrite (main_run_with P _ H); unfold run;
    cbn [nth nth_error];
    rewrite (parse_json_payload_blank P _ Hblank), Hnone; reflexivity.
Qed.

Lemma blank_arguments_are_absent_witness :
  let P := Sample.platform (Sample.server 200 (u "application/json") (js "{}")) in
  main P [u "recipes"; u "  "; u "-v"; []] = main P [u "-v"; u "recipes"].
Proof.
  intros P.
  apply (@blank_arguments_are_absent P _ _ false true false
           (u "recipes") (u "  ")).
  - vm_compute. reflexivity.
  - right. vm_compute. reflexivity.
  - reflexivity.
Defined.

(** ** The verbose dump of the request *)

Lemma writer_print_header (P : Platform) (kv : pystr * pystr) :
  writer (print_header P kv).
Proof. unfold print_header. repeat writer_step. Qed.

(** A computation that starts as a writer ends with the text its
    continuation ends with. *)
Lemma prints_after_writer (A B : Type) (m : M A) (k : A -> M B) (b : B)
  (tail : pystr) :
  writer m ->
  (forall a, exists out, prints (k a) b (out ++ tail)) ->
  exists out, prints (bind m k) b (out ++ tail).
Proof.
  intros [a [o1 Hm]] Hk. destruct (Hk a) as [o2 Hka].
  exists (o1 ++ o2). rewrite <- app_assoc.
  now apply prints_bind with (a := a).
Qed.



(** X17: the verbose dump never shows a bearer token in full: of a token
    of at most twelve characters it shows three stars, and of a longer one
    its first eight and its last four characters only, so that two long
    tokens that agree on those give the same line. *)
Theorem bearer_token_is_masked (P : Platform) (key token token' : pystr) :
  Str.eqb (str_lower P key) (u "authorization") = true ->
  ((List.length token <= 12)%nat ->
   prints (print_header P (key, u "Bearer " ++ token)) tt
     (u "  " ++ key ++ u ": Bearer ***" ++ [newline]))
  /\ ((12 < List.length token)%nat ->
      (12 < List.length token')%nat ->
      firstn 8 token = firstn 8 token' ->
      last_n 4 token = last_n 4 token' ->
      print_header P (key, u "Bearer " ++ token)
      = print_header P (key, u "Bearer " ++ token')).
Proof.
  intros Hkey.
  assert (Hstart : forall t, startswith (u "Bearer " ++ t) (u "Bearer ") = true)
    by reflexivity.
  assert (Hskip : forall t, skipn 7 (u "Bearer " ++ t) = t) by reflexivity.
  split.
  - intros Hlen w. unfold print_header. rewrite Hkey, Hstart, Hskip.
    cbn [andb].
    apply Nat.ltb_ge in Hlen. rewrite Hlen.
    unfold print, write. now rewrite <- !app_assoc.
  - intros Hlen Hlen' Hfirst Hlast. unfold print_header.
    rewrite Hkey, !Hstart, !Hskip. cbn [andb].
    apply Nat.ltb_lt in Hlen, Hlen'. rewrite Hlen, Hlen'.
    now rewrite Hfirst, Hlast.
Qed.

Lemma bearer_token_is_masked_witness :
  let P := Sample.platform Sample.unreachable in
  stdout (snd (print_header P (u "Authorization", u "Bearer 0123456789ab")
                 initial_world))
  = u "  Authorization: Bearer ***" ++ [newline]
  /\ print_header P (u "Authorization", u "Bearer 01234567-secret-cdef")
     = print_header P (u "Authorization", u "Bearer 01234567-public-key-cdef").
Proof.
  intros P.
  destruct (@bearer_token_is_masked P (u "Authorization")
              (u "01234567-secret-cdef") (u "01234567-public-key-cdef"))
    as [_ Hlong]; [reflexivity|].
  destruct (@bearer_token_is_masked P (u "Authorization")
              (u "0123456789ab") [])
    as [Hshort _]; [reflexivity|].
  split.
  - rewrite Hshort; [reflexivity | vm_compute; lia].
  - apply Hlong; vm_compute; try lia; reflexivity.
Defined.



(** ** Rendering the response *)

(** X19: the rendering of an HTML body is never blank: when the extraction
    fails or gives nothing but whitespace, the body itself is shown. *)
Theorem format_html_response_not_blank (P : Platform) (html : pystr) :
  blank html = false -> blank (format_html_response P html) = false.
Proof.
  intros H. unfold format_html_response.
  destruct (html_extract P html) as [result|]; [|exact H].
  destruct (Str.eqb (strip result) []) eqn:E; cbn [negb]; [exact H|].
  rewrite <- blank_guard, E.
  destruct result; [discriminate E | reflexivity].
Qed.

Lemma format_html_response_not_blank_witness :
  let P := Sample.platform Sample.unreachable in
  blank (format_html_response P (u "<p>gone</p>")) = false.
Proof.
  intros P. apply format_html_response_not_blank. reflexivity.
Defined.

(** X20: outside raw mode a response whose body is empty or made of
    whitespace only is rendered as the status banner followed by one
    notice, which says whether the status was a success; the content type
    is not looked at and nothing of the body is printed. *)
Theorem blank_body_notice (P : Platform) (r : Response) (verbose : bool) :
  blank (text r) = true ->
  exists dump,
    prints (print_verbose_response P r) tt dump
    /\ prints (format_response P r false verbose) tt
         ((if verbose then dump else [])
          ++ status_banner (status_code r)
          ++ colored Colors.YELLOW
               (if is_success (status_code r)
                then u "Success but no response body received"
                else u "No response body received")).
Proof.
  intros Hblank.
  destruct (writer_print_verbose_response P r) as [[] [dump Hdump]].
  exists dump. split; [exact Hdump|].
  assert (Hverbose : prints (when verbose (print_verbose_response P r)) tt
                       (if verbose then dump else [])).
  { destruct verbose; [exact Hdump | apply prints_ret]. }
  assert (Hstrip : Str.eqb (strip (text r)) [] = true).
  { rewrite <- blank_guard in Hblank.
    destruct (text r); [reflexivity | exact Hblank]. }
  unfold format_response.
  apply prints_bind with (a := tt); [exact Hverbose|].
  apply prints_bind with (a := tt); [apply prints_print_status|].
  rewrite Hstrip.
  destruct (is_success (status_code r)); apply prints_print_color.
Qed.

Lemma blank_body_notice_witness :
  let P := Sample.platform Sample.unreachable in
  let r := mkResponse 204 (u "No Content")
             (u "https://mealie.example/api/recipes/7")
             [(u "Content-Type", u "application/json")] (u " ") 1 1500 in
  stdout (snd (format_response P r false false initial_world))
  = status_banner 204
    ++ colored Colors.YELLOW (u "Success but no response body received").
Proof.
  intros P r.
  destruct (@blank_body_notice P r false) as [dump [_ H]]; [reflexivity|].
  rewrite H. reflexivity.
Defined.

(** ** Files left open *)

(** The classification of a payload whose first missing file comes after
    the items [before] exits with 1 having opened the files of [before],
    none of which it closes. *)
Lemma prepare_items_stops (P : Platform) (before : list (pystr * pyvalue)) :
  forall files data w kv after,
    existsb (is_missing P) before = false ->
    is_missing P kv = true ->
    exists w' hs,
      prepare_items P (before ++ kv :: after) files data w = (Exit 1, w')
      /\ opened w' = opened w ++ hs
      /\ map path hs = map (resolved P) (file_items P before)
      /\ closed w' = closed w
      /\ sent w' = sent w.
Proof.
  induction before as [|[key value] rest IH];
    intros files data w kv after Hbefore Hkv.
  - destruct kv as [key value]. cbn [app prepare_items].
    unfold is_missing, is_file_item, resolved in Hkv. cbn [fst snd] in Hkv.
    apply andb_true_iff in Hkv. destruct Hkv as [Href Hfile].
    apply negb_true_iff in Hfile. rewrite Href, Hfile.
    rewrite (bind_return _ (prints_print_color _ _ _)).
    eexists _, []. split; [reflexivity|].
    cbn. rewrite app_nil_r. repeat split.
  - cbn [existsb] in Hbefore. apply orb_false_iff in Hbefore.
    destruct Hbefore as [Hhead Hrest].
    unfold is_missing, is_file_item, resolved in Hhead.
    cbn [fst snd] in Hhead.
    cbn [app prepare_items].
    destruct (is_file_reference P key value) eqn:Href; cbn [andb] in Hhead.
    + apply negb_false_iff in Hhead. rewrite Hhead.
      rewrite (bind_return _ (prints_print_color _ _ _)).
      unfold bind at 1, open_rb.
      match goal with
      | |- context [prepare_items P (rest ++ kv :: after) ?fs ?ds ?w0] =>
          destruct (IH fs ds w0 kv after Hrest Hkv)
            as [w' [hs [Hrun [Ho [Hp [Hc Hs]]]]]]
      end.
      cbn [stdout sent opened closed emit] in Ho, Hc, Hs.
      eexists w', (_ :: hs). split; [exact Hrun|].
      rewrite (proj1 (items_cons_file P key value rest Href)).
      repeat split.
      * rewrite Ho, <- app_assoc. reflexivity.
      * cbn [map path]. unfold resolved at 1. cbn [snd]. now rewrite Hp.
      * exact Hc.
      * exact Hs.
    + destruct (IH files (dict_set data key value) w kv after Hrest Hkv)
        as [w' [hs [Hrun [Ho [Hp [Hc Hs]]]]]].
      exists w', hs. split; [exact Hrun|].
      rewrite (proj1 (items_cons_plain P key value rest Href)).
      repeat split; assumption.
Qed.



(** X22: without the multipart flag an invocation opens no file and
    closes none, whatever its payload names and however it ends. *)
Theorem files_only_in_multipart_mode (P : Platform) (argv : list pystr)
  (raw_output verbose : bool) (args : list pystr) (w : World) :
  parse_flags argv = (raw_output, verbose, false, args) ->
  opened (snd (main P argv w)) = opened w
  /\ closed (snd (main P argv w)) = closed w.
Proof.
  intros Hflags. rewrite (main_run_with P _ Hflags).
  destruct (run P raw_output verbose false args w) as [o w'] eqn:H.
  cbn [snd]. apply run_reaches_request in H.
  destruct H as [[_ Hio] | [payload [w1 [w0 [_ [[_ [Ho0 Hc0]] [_ H]]]]]]];
    [exact Hio|].
  assert (Hreq : forall url method headers o1 w2,
            make_request P url method headers payload false w0 = (o1, w2) ->
            opened w2 = opened w /\ closed w2 = closed w).
  { intros url method headers o1 w2 Hm.
    rewrite make_request_direct in Hm by apply andb_false_r.
    symmetry in Hm. apply answer_files in Hm. destruct Hm as [Ho Hc].
    rewrite app_nil_r in Hc. split; congruence. }
  apply bind_inv in H.
  destruct H as [[a [w2 [Hm Hk]]] | [[c [Hm _]] | [e [Hm _]]]].
  - apply finish_same_io in Hk. destruct Hk as [_ [_ [Ho2 Hc2]]].
    destruct (Hreq _ _ _ _ _ Hm) as [Ho Hc]. split; congruence.
  - exact (Hreq _ _ _ _ _ Hm).
  - exact (Hreq _ _ _ _ _ Hm).
Qed.

Lemma files_only_in_multipart_mode_witness :
  let P := Sample.platform (Sample.server 200 (u "application/json") (js "{}")) in
  let argv := [u "backups/upload"; js "{'archive': '~/backup.zip'}"] in
  is_file_item P (u "archive", PyStr (u "~/backup.zip")) = true
  /\ opened (snd (main P argv initial_world)) = []
  /\ closed (snd (main P argv initial_world)) = [].
Proof.
  intros P argv. split; [reflexivity|].
  apply (@files_only_in_multipart_mode P argv false false argv initial_world).
  vm_compute. reflexivity.
Defined.

End Further.
